(** * MSSQL MCP server for Azure AI Foundry: connection manager, query
    executors, session registry and access guard

    A shallow embedding of [mcp-server.ts] (the MCP-over-SSE server),
    [server.ts] (the REST variant) and [middleware/auth.ts].

    Conventions.
    - JavaScript values that arrive as JSON are [jsval]; numbers are integers
      ([Z]), instants are milliseconds since the epoch ([Z]).
    - An [async] function is a computation in the monad [M]: it reads the
      answers of the outside world for this invocation ([Env]), threads the
      process state ([State]), may throw ([exn]) and records the outbound
      calls it makes ([event]).
    - The token provider, the SQL driver and the clock are external: their
      answers are inputs ([Env]); nothing is assumed about them.
    - Console output is not modelled. *)

From Stdlib Require Import ZArith String Ascii List Bool Lia DecimalString.
From stdpp Require Import base option gmap strings list fin_maps.

Set Warnings "-register-all,-clear-no-such-hyp".
Local Open Scope string_scope.
Local Open Scope list_scope.

(* ===================================================================== *)
(** * JavaScript values                                                    *)
(* ===================================================================== *)

Inductive jsval : Type :=
| JUndefined
| JNull
| JBool (b : bool)
| JNum (n : Z)
| JStr (s : string)
| JArr (xs : list jsval)
| JObj (fields : list (string * jsval)).

(** What a [throw] carries: an [Error] (with its [message]), a [TypeError]
    raised by the runtime (also [instanceof Error]), or any other value. *)
Inductive exn : Type :=
| JsError (msg : string)
| JsTypeError (msg : string)
| JsThrown (v : jsval).

(** [!!v] *)
Definition truthy (v : jsval) : bool :=
  match v with
  | JUndefined | JNull => false
  | JBool b => b
  | JNum n => negb (n =? 0)%Z
  | JStr s => negb (String.eqb s "")
  | JArr _ | JObj _ => true
  end.

(** [typeof v === 'string'] *)
Definition is_string (v : jsval) : bool :=
  match v with JStr _ => true | _ => false end.

Fixpoint assoc (k : string) (fields : list (string * jsval)) : option jsval :=
  match fields with
  | [] => None
  | (k', v) :: rest => if String.eqb k k' then Some v else assoc k rest
  end.

(** [const { k } = v]: reading a property of [undefined] or [null] throws;
    a missing property reads as [undefined]. *)
Definition destructure (v : jsval) (k : string) : exn + jsval :=
  match v with
  | JUndefined =>
      inl (JsTypeError ("Cannot destructure property '" +:+ k +:+ "' of 'undefined' as it is undefined."))
  | JNull =>
      inl (JsTypeError ("Cannot destructure property '" +:+ k +:+ "' of 'null' as it is null."))
  | JObj fields => inr (default JUndefined (assoc k fields))
  | _ => inr JUndefined
  end.

(** [a || b] on optional strings, as in [req.headers[h] || req.query.q]:
    a missing value and the empty string are both falsy. *)
Definition str_truthy (o : option string) : bool :=
  match o with
  | Some s => negb (String.eqb s "")
  | None => false
  end.

Definition js_or (a b : option string) : option string :=
  if str_truthy a then a else b.

(** [x.startsWith(p)] *)
Definition startsWith (x p : string) : bool := String.prefix p x.

Definition nat_to_string (n : nat) : string :=
  NilZero.string_of_uint (Nat.to_uint n).

Definition Z_to_string (z : Z) : string :=
  NilZero.string_of_int (Z.to_int z).

(** [String(v)], as a template literal applies it. *)
Fixpoint ToString (v : jsval) : string :=
  match v with
  | JUndefined => "undefined"
  | JNull => "null"
  | JBool true => "true"
  | JBool false => "false"
  | JNum n => Z_to_string n
  | JStr s => s
  | JArr xs =>
      String.concat ","
        (map (fun x => match x with
                       | JUndefined | JNull => ""
                       | _ => ToString x
                       end) xs)
  | JObj _ => "[object Object]"
  end.

(** The primitives of the runtime that the code calls and that are not
    written out here: [String.prototype.trim] and [toUpperCase] (Unicode
    tables), the relational comparison [v > 0] on an arbitrary value,
    [JSON.stringify(v, null, 2)] (which throws on some values) and
    [new Date(t).toISOString()].  Only what every runtime guarantees is
    required of them. *)
Class JsRuntime : Type := {
  trim : string -> string;
  toUpperCase : string -> string;
  gt_zero : jsval -> bool;
  JSON_stringify : jsval -> exn + string;
  toISOString : Z -> string;
  trim_empty : trim "" = "";
  toUpperCase_empty : toUpperCase "" = "";
  gt_zero_num : forall n, gt_zero (JNum n) = (0 <? n)%Z;
  gt_zero_undefined : gt_zero JUndefined = false
}.

(* ===================================================================== *)
(** * Process state, outside world, events                                 *)
(* ===================================================================== *)

(** A connection pool handle of the SQL driver. *)
Definition handle : Type := nat.

(** The three module-level variables of the connection manager. *)
Record Shared : Type := mkShared {
  globalSqlPool : option handle;
  globalAccessToken : option string;
  globalTokenExpiresOn : option Z
}.

(** The driver's side: which pools report [connected], and the next pool
    it will hand out. *)
Record Driver : Type := mkDriver {
  live : gset handle;
  next_handle : handle
}.

Record State : Type := mkState {
  shared : Shared;
  driver : Driver
}.

Definition initial_state : State :=
  mkState (mkShared None None None) (mkDriver ∅ 0).

(** [credential.getToken] resolves to an [AccessToken] (or, by the [?.] the
    code guards with, to nothing). *)
Record AccessToken : Type := mkAccessToken {
  token : string;
  expiresOnTimestamp : option Z
}.

(** A statement handed to [request.query], with the inputs bound before. *)
Record SqlRequest : Type := mkSqlRequest {
  sql_text : string;
  sql_inputs : list (string * jsval)
}.

(** The configuration [sql.connect] receives. Server, database, encryption
    and timeout come from the process environment and steer nothing here;
    the token is the part a refresh changes. *)
Record SqlConfig : Type := mkSqlConfig {
  config_token : option string
}.

(** Outbound calls, in the order they are made. *)
Inductive event : Type :=
| EvGetToken
| EvClose (h : handle)
| EvConnect (c : SqlConfig)
| EvQuery (q : SqlRequest).

(** What the outside world answers during one invocation. *)
Record Env : Type := mkEnv {
  now_guard : Z;
  now_config : Z;
  now_done : Z;
  getToken_result : exn + option AccessToken;
  close_result : exn + unit;
  connect_result : exn + unit;
  query_result : SqlRequest -> exn + list jsval
}.

(* ===================================================================== *)
(** * The monad of async functions                                        *)
(* ===================================================================== *)

Definition Res (A : Type) : Type := ((exn + A) * State * list event)%type.

Definition M (A : Type) : Type := Env -> State -> Res A.

Definition ret {A} (a : A) : M A := fun _ s => (inr a, s, []).

Definition throw {A} (e : exn) : M A := fun _ s => (inl e, s, []).

Definition bind {A B} (m : M A) (k : A -> M B) : M B :=
  fun env s =>
    match m env s with
    | (inl e, s', tr) => (inl e, s', tr)
    | (inr a, s', tr) =>
        match k a env s' with
        | (r, s'', tr') => (r, s'', tr ++ tr')
        end
    end.

(** [try { m } catch (error) { h error }] *)
Definition try_catch {A} (m : M A) (h : exn -> M A) : M A :=
  fun env s =>
    match m env s with
    | (inl e, s', tr) =>
        match h e env s' with
        | (r, s'', tr') => (r, s'', tr ++ tr')
        end
    | (inr a, s', tr) => (inr a, s', tr)
    end.

Definition lift {A} (r : exn + A) : M A := fun _ s => (r, s, []).

Definition get_state : M State := fun _ s => (inr s, s, []).

Definition ask {A} (f : Env -> A) : M A := fun env s => (inr (f env), s, []).

Definition set_shared (f : Shared -> Shared) : M unit :=
  fun _ s => (inr tt, mkState (f (shared s)) (driver s), []).

Notation "x <- m ;; k" := (bind m (fun x => k))
  (at level 20, m at level 99, k at level 200, only parsing).
Notation "m ;;; k" := (bind m (fun _ => k))
  (at level 100, k at level 200, only parsing, right associativity).

(* ===================================================================== *)
(** * Connection manager                                                   *)
(* ===================================================================== *)

(** [await credential.getToken(scope)] *)
Definition await_getToken : M (option AccessToken) :=
  fun env s => (getToken_result env, s, [EvGetToken]).

(** [pool.connected] *)
Definition connected (s : State) (h : handle) : bool :=
  bool_decide (h ∈ live (driver s)).

(** [await pool.close()]: when it resolves the pool no longer reports
    connected; when it rejects nothing has changed. *)
Definition await_close (h : handle) : M unit :=
  fun env s =>
    match close_result env with
    | inl e => (inl e, s, [EvClose h])
    | inr _ =>
        (inr tt,
         mkState (shared s)
                 (mkDriver (live (driver s) ∖ {[h]}) (next_handle (driver s))),
         [EvClose h])
    end.

(** [await sql.connect(config)]: when it resolves, a pool that was not
    there before reports connected. *)
Definition await_connect (c : SqlConfig) : M handle :=
  fun env s =>
    match connect_result env with
    | inl e => (inl e, s, [EvConnect c])
    | inr _ =>
        let h := next_handle (driver s) in
        (inr h,
         mkState (shared s) (mkDriver ({[h]} ∪ live (driver s)) (S h)),
         [EvConnect c])
    end.

(** The expiry [createSqlConfig] reports: the provider's timestamp when it
    is there (and not [0], which is falsy), else thirty minutes from now. *)
Definition expiresOn_of (a : option AccessToken) (now : Z) : Z :=
  match a with
  | Some t =>
      match expiresOnTimestamp t with
      | Some ts => if (ts =? 0)%Z then (now + 30 * 60 * 1000)%Z else ts
      | None => (now + 30 * 60 * 1000)%Z
      end
  | None => (now + 30 * 60 * 1000)%Z
  end.

Definition createSqlConfig : M (SqlConfig * option string * Z) :=
  accessToken <- await_getToken ;;
  now <- ask now_config ;;
  ret (mkSqlConfig (token <$> accessToken),
       token <$> accessToken,
       expiresOn_of accessToken now).

(** The guard of [ensureSqlConnection]: a pool is held and connected, a
    token is held, and its expiry is later than two minutes from now. *)
Definition connection_is_fresh (now : Z) (s : State) : bool :=
  match globalSqlPool (shared s) with
  | Some h =>
      connected s h
      && str_truthy (globalAccessToken (shared s))
      && match globalTokenExpiresOn (shared s) with
         | Some e => (now + 2 * 60 * 1000 <? e)%Z
         | None => false
         end
  | None => false
  end.

(** The pool that [if (globalSqlPool && globalSqlPool.connected)] finds. *)
Definition connected_pool (s : State) : option handle :=
  match globalSqlPool (shared s) with
  | Some h => if connected s h then Some h else None
  | None => None
  end.

Definition ensureSqlConnection : M unit :=
  s <- get_state ;;
  now <- ask now_guard ;;
  if connection_is_fresh now s then ret tt
  else
    r <- createSqlConfig ;;
    let '(config, tok, expiresOn) := r in
    set_shared (fun sh => mkShared (globalSqlPool sh) tok (globalTokenExpiresOn sh)) ;;;
    set_shared (fun sh => mkShared (globalSqlPool sh) (globalAccessToken sh) (Some expiresOn)) ;;;
    s1 <- get_state ;;
    match connected_pool s1 with
    | Some h => await_close h
    | None => ret tt
    end ;;;
    h' <- await_connect config ;;
    set_shared (fun sh => mkShared (Some h') (globalAccessToken sh) (globalTokenExpiresOn sh)).

(** The SIGTERM handler closes whatever pool is held, connected or not
    (the process exits afterwards). *)
Definition onSigterm : M unit :=
  s <- get_state ;;
  match globalSqlPool (shared s) with
  | Some h => await_close h
  | None => ret tt
  end.

(** ** [ensureSqlConnection] cut at its [await]s

    On the event loop a call runs until its next [await] and resumes when
    the awaited call settles; between the two, other calls may run.  A
    call in flight is at one of these points. *)
Inductive pc : Type :=
| AtStart
| AtGetToken
| AtClose (c : SqlConfig) (h : handle)
| AtConnect (c : SqlConfig)
| Done (r : exn + unit).

Definition store_token (a : option AccessToken) (now : Z) (s : State) : State :=
  mkState (mkShared (globalSqlPool (shared s))
                    (token <$> a)
                    (Some (expiresOn_of a now)))
          (driver s).

(** One uninterrupted stretch of a call: from the point [p] to its next
    [await] (or its end), with the events issued on the way. *)
Definition task_step (env : Env) (p : pc) (s : State) : pc * State * list event :=
  match p with
  | AtStart =>
      if connection_is_fresh (now_guard env) s then (Done (inr tt), s, [])
      else (AtGetToken, s, [EvGetToken])
  | AtGetToken =>
      match getToken_result env with
      | inl e => (Done (inl e), s, [])
      | inr a =>
          let c := mkSqlConfig (token <$> a) in
          let s1 := store_token a (now_config env) s in
          match connected_pool s1 with
          | Some h => (AtClose c h, s1, [EvClose h])
          | None => (AtConnect c, s1, [EvConnect c])
          end
      end
  | AtClose c h =>
      match close_result env with
      | inl e => (Done (inl e), s, [])
      | inr _ =>
          (AtConnect c,
           mkState (shared s)
                   (mkDriver (live (driver s) ∖ {[h]}) (next_handle (driver s))),
           [EvConnect c])
      end
  | AtConnect c =>
      match connect_result env with
      | inl e => (Done (inl e), s, [])
      | inr _ =>
          let h := next_handle (driver s) in
          (Done (inr tt),
           mkState (mkShared (Some h)
                             (globalAccessToken (shared s))
                             (globalTokenExpiresOn (shared s)))
                   (mkDriver ({[h]} ∪ live (driver s)) (S h)),
           [])
      end
  | Done r => (Done r, s, [])
  end.

(** A call that nothing interrupts: its four stretches back to back. *)
Fixpoint run_alone (fuel : nat) (env : Env) (p : pc) (s : State)
  : pc * State * list event :=
  match fuel with
  | O => (p, s, [])
  | S n =>
      match task_step env p s with
      | (p', s', tr) =>
          match run_alone n env p' s' with
          | (p'', s'', tr') => (p'', s'', tr ++ tr')
          end
      end
  end.

(** ** Several calls in flight *)

(** The process with its calls in flight; [closed] lists the pools whose
    [close()] has resolved, latest first. *)
Record System : Type := mkSystem {
  sys_state : State;
  sys_tasks : list pc;
  sys_closed : list handle;
  sys_trace : list event
}.

(** What happens next: call [i] resumes (with the world's answers), or the
    network drops the connection of pool [h]. *)
Inductive action : Type :=
| Resume (i : nat) (env : Env)
| Disconnect (h : handle).

Definition newly_closed (env : Env) (p : pc) : list handle :=
  match p, close_result env with
  | AtClose _ h, inr _ => [h]
  | _, _ => []
  end.

Definition sys_step (a : action) (sys : System) : System :=
  match a with
  | Resume i env =>
      match sys_tasks sys !! i with
      | Some p =>
          match task_step env p (sys_state sys) with
          | (p', s', tr) =>
              mkSystem s' (<[i := p']> (sys_tasks sys))
                       (newly_closed env p ++ sys_closed sys)
                       (sys_trace sys ++ tr)
          end
      | None => sys
      end
  | Disconnect h =>
      mkSystem (mkState (shared (sys_state sys))
                        (mkDriver (live (driver (sys_state sys)) ∖ {[h]})
                                  (next_handle (driver (sys_state sys)))))
               (sys_tasks sys) (sys_closed sys) (sys_trace sys)
  end.

Definition sys_run (sched : list action) (sys : System) : System :=
  fold_left (fun acc a => sys_step a acc) sched sys.

(** [n] calls, none started yet, on a fresh process. *)
Definition sys_init (n : nat) : System :=
  mkSystem initial_state (replicate n AtStart) [] [].

(** A call is in flight between its first and its last stretch. *)
Definition in_flight (p : pc) : bool :=
  match p with
  | AtStart | Done _ => false
  | _ => true
  end.

(** The schedule never resumes one call while another is in flight: the
    calls run one after the other. *)
Definition others_idle (i : nat) (tasks : list pc) : bool :=
  forallb (fun p => negb (in_flight p)) (delete i tasks).

Fixpoint serialized (sched : list action) (sys : System) : bool :=
  match sched with
  | [] => true
  | a :: rest =>
      match a with
      | Resume i _ => others_idle i (sys_tasks sys)
      | Disconnect _ => true
      end
      && serialized rest (sys_step a sys)
  end.

(* ===================================================================== *)
(** * Query executors and the tool-call handler                            *)
(* ===================================================================== *)

(** [error instanceof Error ? error.message : 'Unknown error'] *)
Definition error_message (e : exn) : string :=
  match e with
  | JsError m | JsTypeError m => m
  | JsThrown _ => "Unknown error"
  end.

(** [await request.query(text)] on a request with the given inputs. *)
Definition await_query (q : SqlRequest) : M (list jsval) :=
  fun env s => (query_result env q, s, [EvQuery q]).

(** A value already known to be a string. *)
Definition string_of (v : jsval) : string :=
  match v with JStr s => s | _ => "" end.

(** [v.length] of a truthy value. *)
Definition length_of (v : jsval) : jsval :=
  match v with
  | JArr xs => JNum (Z.of_nat (length xs))
  | JStr s => JNum (Z.of_nat (String.length s))
  | JObj fields => default JUndefined (assoc "length" fields)
  | _ => JUndefined
  end.

(** The result of a tool call as the protocol carries it; [isError] is
    absent (read here as [false]) on success. *)
Record CallToolResult : Type := mkCallToolResult {
  content_text : string;
  isError : bool
}.

Record HttpResponse : Type := mkHttpResponse {
  status : Z;
  json : jsval
}.

Section Executors.
Context `{JsRuntime}.

Definition executeReadData (args : jsval) : M jsval :=
  query <- lift (destructure args "query") ;;
  if negb (truthy query) || negb (is_string query) then
    throw (JsError "Query is required and must be a string")
  else if negb (startsWith (toUpperCase (trim (string_of query))) "SELECT") then
    throw (JsError "Only SELECT queries are allowed")
  else
    recordset <- await_query (mkSqlRequest (string_of query) []) ;;
    now <- ask now_done ;;
    ret (JObj [("success", JBool true);
               ("message", JStr ("Retrieved " +:+ nat_to_string (length recordset) +:+ " record(s)"));
               ("data", JArr recordset);
               ("recordCount", JNum (Z.of_nat (length recordset)));
               ("executedAt", JStr (toISOString now))]).

Definition executeListTable (args : jsval) : M jsval :=
  parameters <- lift (destructure (if truthy args then args else JObj []) "parameters") ;;
  schemaFilter <-
    (if truthy parameters && gt_zero (length_of parameters) then
       match parameters with
       | JArr ps =>
           ret ("AND TABLE_SCHEMA IN ("
                +:+ String.concat ", " (map (fun p => "'" +:+ ToString p +:+ "'") ps)
                +:+ ")")
       | _ => throw (JsTypeError "parameters.map is not a function")
       end
     else ret "") ;;
  recordset <-
    await_query
      (mkSqlRequest
         ("SELECT TABLE_SCHEMA + '.' + TABLE_NAME as [table] FROM INFORMATION_SCHEMA.TABLES WHERE TABLE_TYPE = 'BASE TABLE' "
          +:+ schemaFilter +:+ " ORDER BY TABLE_SCHEMA, TABLE_NAME")
         []) ;;
  now <- ask now_done ;;
  ret (JObj [("success", JBool true);
             ("message", JStr "List tables executed successfully");
             ("tables", JArr recordset);
             ("tableCount", JNum (Z.of_nat (length recordset)));
             ("executedAt", JStr (toISOString now))]).

Definition executeDescribeTable (args : jsval) : M jsval :=
  tableName <- lift (destructure args "tableName") ;;
  if negb (truthy tableName) || negb (is_string tableName) then
    throw (JsError "tableName is required and must be a string")
  else
    recordset <-
      await_query
        (mkSqlRequest
           "SELECT COLUMN_NAME as name, DATA_TYPE as type FROM INFORMATION_SCHEMA.COLUMNS WHERE TABLE_NAME = @tableName"
           [("tableName", tableName)]) ;;
    now <- ask now_done ;;
    ret (JObj [("success", JBool true);
               ("tableName", tableName);
               ("columns", JArr recordset);
               ("columnCount", JNum (Z.of_nat (length recordset)));
               ("executedAt", JStr (toISOString now))]).

(** The [switch] over the tool name: the executor a name selects. *)
Definition executor_for (name : string) : option (jsval -> M jsval) :=
  if String.eqb name "read_data" then Some executeReadData
  else if String.eqb name "list_table" then Some executeListTable
  else if String.eqb name "describe_table" then Some executeDescribeTable
  else None.

(** The part of the handler inside [try]. *)
Definition callTool_body (name : string) (args : jsval) : M CallToolResult :=
  ensureSqlConnection ;;;
  match executor_for name with
  | Some execute =>
      result <- execute args ;;
      text <- lift (JSON_stringify result) ;;
      ret (mkCallToolResult text false)
  | None =>
      ret (mkCallToolResult ("Unknown tool: " +:+ name) true)
  end.

(** The [CallToolRequestSchema] handler. *)
Definition callTool (name : string) (args : jsval) : M CallToolResult :=
  try_catch (callTool_body name args)
            (fun error => ret (mkCallToolResult ("Error: " +:+ error_message error) true)).

(** [POST /api/read_data] of the REST variant. *)
Definition post_api_read_data (body : jsval) : M HttpResponse :=
  try_catch
    (ensureSqlConnection ;;;
     query <- lift (destructure body "query") ;;
     if negb (truthy query) || negb (is_string query) then
       ret (mkHttpResponse 400
              (JObj [("success", JBool false);
                     ("error", JStr "Query is required and must be a string")]))
     else if negb (startsWith (toUpperCase (trim (string_of query))) "SELECT") then
       ret (mkHttpResponse 400
              (JObj [("success", JBool false);
                     ("error", JStr "Only SELECT queries are allowed")]))
     else
       recordset <- await_query (mkSqlRequest (string_of query) []) ;;
       ret (mkHttpResponse 200
              (JObj [("success", JBool true);
                     ("message", JStr ("Retrieved " +:+ nat_to_string (length recordset) +:+ " record(s)"));
                     ("data", JArr recordset);
                     ("recordCount", JNum (Z.of_nat (length recordset)))])))
    (fun error =>
       ret (mkHttpResponse 500
              (JObj [("success", JBool false);
                     ("error", JStr (error_message error))]))).

End Executors.

(* ===================================================================== *)
(** * Inbound requests                                                     *)
(* ===================================================================== *)

(** What the middleware and the routes read of an Express request: the
    path, three headers, two query parameters and the parsed body. *)
Record Request : Type := mkRequest {
  path : string;
  x_api_key : option string;
  authorization : option string;
  x_mcp_session_id : option string;
  query_apiKey : option string;
  query_sessionId : option string;
  body : jsval
}.

(* ===================================================================== *)
(** * Session registry and the two [/sse] endpoints                        *)
(* ===================================================================== *)

(** An [SSEServerTransport]: its session id and the response stream it
    writes to. *)
Record Transport : Type := mkTransport {
  sessionId : string;
  stream : nat
}.

(** [GET /sse]: [transports.set(transport.sessionId, transport)]. *)
Definition get_sse (t : Transport) (transports : gmap string Transport)
  : gmap string Transport :=
  <[sessionId t := t]> transports.

(** The [onclose] callback that [GET /sse] installs:
    [transports.delete(transport.sessionId)]. *)
Definition onclose (t : Transport) (transports : gmap string Transport)
  : gmap string Transport :=
  delete (sessionId t) transports.

(** What [POST /sse] does with a message: answer it itself, or hand it to
    the transport's [handlePostMessage]. *)
Inductive PostOutcome : Type :=
| Respond (r : HttpResponse)
| HandlePostMessage (t : Transport) (message : jsval).

(** [POST /sse], with the registry lookups it performs. *)
Definition post_sse (req : Request) (transports : gmap string Transport)
  : PostOutcome * list string :=
  let sessionId := js_or (x_mcp_session_id req) (query_sessionId req) in
  if negb (str_truthy sessionId) then
    (Respond (mkHttpResponse 400 (JObj [("error", JStr "Missing session ID")])), [])
  else
    let sid := default "" sessionId in
    match transports !! sid with
    | None =>
        (Respond (mkHttpResponse 404 (JObj [("error", JStr "Session not found")])), [sid])
    | Some transport => (HandlePostMessage transport (body req), [sid])
    end.

(** The life of the registry: sessions open and close. *)
Inductive registry_op : Type :=
| Open (t : Transport)
| Close (t : Transport).

Definition registry_step (m : gmap string Transport) (op : registry_op)
  : gmap string Transport :=
  match op with
  | Open t => get_sse t m
  | Close t => onclose t m
  end.

(* ===================================================================== *)
(** * Access guard                                                         *)
(* ===================================================================== *)

(** [s.replace(pat, "")] with a string pattern: the first occurrence of
    [pat] is removed. *)
Fixpoint drop_chars (n : nat) (s : string) : string :=
  match n, s with
  | O, _ => s
  | S n', String _ rest => drop_chars n' rest
  | S _, EmptyString => EmptyString
  end.

Fixpoint remove_first (pat s : string) : string :=
  if String.prefix pat s then drop_chars (String.length pat) s
  else
    match s with
    | EmptyString => EmptyString
    | String c rest => String c (remove_first pat rest)
    end.

(** [req.headers['authorization']?.replace('Bearer ', '')] *)
Definition bearer (req : Request) : option string :=
  remove_first "Bearer " <$> authorization req.

(** A middleware either calls [next()] or answers the request. *)
Inductive Verdict : Type :=
| Next
| Reply (r : HttpResponse).

(** The credential [apiKeyAuth] extracts from a request. *)
Definition requestKey (req : Request) : option string :=
  js_or (js_or (x_api_key req) (bearer req)) (query_apiKey req).

Definition apiKeyAuth (API_KEY : option string) (req : Request) : Verdict :=
  if String.eqb (path req) "/health" then Next
  else if negb (str_truthy API_KEY) then Next
  else if negb (str_truthy (requestKey req)) then
    Reply (mkHttpResponse 401
             (JObj [("error", JStr "Unauthorized");
                    ("message", JStr "API key required. Provide via x-api-key header, Authorization header, or apiKey query parameter.")]))
  else if negb (bool_decide (requestKey req = API_KEY)) then
    Reply (mkHttpResponse 403
             (JObj [("error", JStr "Forbidden");
                    ("message", JStr "Invalid API key")]))
  else Next.

Record RateRecord : Type := mkRateRecord {
  count : Z;
  resetTime : Z
}.

(** The key the rate limiter counts a request under. *)
Definition rateLimiter_key (req : Request) : string :=
  default "anonymous" (js_or (js_or (x_api_key req) (bearer req)) (Some "anonymous")).

(** [Math.ceil(x / 1000)] *)
Definition ceil_div_1000 (x : Z) : Z := (- ((- x) / 1000))%Z.

Definition rateLimiter (maxRequests windowMs : Z) (req : Request) (now : Z)
    (requestCounts : gmap string RateRecord) : Verdict * gmap string RateRecord :=
  let apiKey := rateLimiter_key req in
  match requestCounts !! apiKey with
  | Some record =>
      if (resetTime record <? now)%Z then
        (Next, <[apiKey := mkRateRecord 1 (now + windowMs)]> requestCounts)
      else if (maxRequests <=? count record)%Z then
        let resetIn := ceil_div_1000 (resetTime record - now) in
        (Reply (mkHttpResponse 429
                  (JObj [("error", JStr "Too Many Requests");
                         ("message", JStr ("Rate limit exceeded. Try again in "
                                           +:+ Z_to_string resetIn +:+ " seconds."));
                         ("retryAfter", JNum resetIn)])),
         requestCounts)
      else
        (Next, <[apiKey := mkRateRecord (count record + 1) (resetTime record)]> requestCounts)
  | None =>
      (Next, <[apiKey := mkRateRecord 1 (now + windowMs)]> requestCounts)
  end.

(** The environment the guard is configured from. *)
Record GuardConfig : Type := mkGuardConfig {
  API_KEY : option string;
  ENABLE_RATE_LIMITING : bool;
  RATE_LIMIT_MAX : Z;
  RATE_LIMIT_WINDOW_MS : Z
}.

(** The middleware chain as the server installs it: nothing without
    [API_KEY]; else [apiKeyAuth], then the rate limiter when enabled. *)
Definition access_guard (cfg : GuardConfig) (req : Request) (now : Z)
    (requestCounts : gmap string RateRecord) : Verdict * gmap string RateRecord :=
  if str_truthy (API_KEY cfg) then
    match apiKeyAuth (API_KEY cfg) req with
    | Reply r => (Reply r, requestCounts)
    | Next =>
        if ENABLE_RATE_LIMITING cfg then
          rateLimiter (RATE_LIMIT_MAX cfg) (RATE_LIMIT_WINDOW_MS cfg) req now requestCounts
        else (Next, requestCounts)
    end
  else (Next, requestCounts).

(** Requests arriving one after the other, each at its instant. *)
Fixpoint guard_run (cfg : GuardConfig) (reqs : list (Request * Z))
    (requestCounts : gmap string RateRecord)
  : list Verdict * gmap string RateRecord :=
  match reqs with
  | [] => ([], requestCounts)
  | (req, now) :: rest =>
      match access_guard cfg req now requestCounts with
      | (v, counts') =>
          match guard_run cfg rest counts' with
          | (vs, counts'') => (v :: vs, counts'')
          end
      end
  end.

(* ===================================================================== *)
(** * A runtime to evaluate closed examples with                           *)
(* ===================================================================== *)

(** Exact on strings of ASCII characters and on instants of the years 0000
    to 9999; [v > 0] is exact on numbers, booleans, [null] and
    [undefined]; [JSON.stringify] escapes only the quote and the
    backslash.  The theorems below hold for every [JsRuntime]; this one
    serves to run the functions on concrete inputs. *)

Definition is_space (c : ascii) : bool :=
  let n := nat_of_ascii c in
  (Nat.leb 9 n && Nat.leb n 13) || Nat.eqb n 32.

Fixpoint trim_start (s : string) : string :=
  match s with
  | String c rest => if is_space c then trim_start rest else s
  | EmptyString => EmptyString
  end.

Fixpoint rev_string (acc s : string) : string :=
  match s with
  | String c rest => rev_string (String c acc) rest
  | EmptyString => acc
  end.

Definition ascii_trim (s : string) : string :=
  rev_string "" (trim_start (rev_string "" (trim_start s))).

Definition upper_char (c : ascii) : ascii :=
  let n := nat_of_ascii c in
  if Nat.leb 97 n && Nat.leb n 122 then ascii_of_nat (n - 32) else c.

Fixpoint ascii_toUpperCase (s : string) : string :=
  match s with
  | String c rest => String (upper_char c) (ascii_toUpperCase rest)
  | EmptyString => EmptyString
  end.

Definition simple_gt_zero (v : jsval) : bool :=
  match v with
  | JNum n => (0 <? n)%Z
  | JBool b => b
  | _ => false
  end.

Definition dquote : string := String (ascii_of_nat 34) EmptyString.
Definition newline : string := String (ascii_of_nat 10) EmptyString.

Fixpoint json_escape (s : string) : string :=
  match s with
  | String c rest =>
      (if Nat.eqb (nat_of_ascii c) 34 || Nat.eqb (nat_of_ascii c) 92
       then String (ascii_of_nat 92) (String c EmptyString)
       else String c EmptyString) +:+ json_escape rest
  | EmptyString => EmptyString
  end.

Fixpoint json_print (indent : string) (v : jsval) : string :=
  match v with
  | JUndefined | JNull => "null"
  | JBool true => "true"
  | JBool false => "false"
  | JNum n => Z_to_string n
  | JStr s => dquote +:+ json_escape s +:+ dquote
  | JArr [] => "[]"
  | JArr xs =>
      let inner := indent +:+ "  " in
      "[" +:+ newline +:+ inner
      +:+ String.concat ("," +:+ newline +:+ inner) (map (json_print inner) xs)
      +:+ newline +:+ indent +:+ "]"
  | JObj fields =>
      let inner := indent +:+ "  " in
      let shown :=
        flat_map (fun kv => match kv with
                            | (_, JUndefined) => []
                            | (k, x) => [dquote +:+ json_escape k +:+ dquote
                                         +:+ ": " +:+ json_print inner x]
                            end) fields in
      match shown with
      | [] => "{}"
      | _ => "{" +:+ newline +:+ inner
             +:+ String.concat ("," +:+ newline +:+ inner) shown
             +:+ newline +:+ indent +:+ "}"
      end
  end.

Definition pad (width : nat) (n : Z) : string :=
  let digits := Z_to_string n in
  String.concat "" (replicate (width - String.length digits) "0") +:+ digits.

(** The proleptic Gregorian date of an instant, from the count of days
    since the first of March of the year 0. *)
Definition iso_of_instant (t : Z) : string :=
  let days := (t / 86400000)%Z in
  let ms := (t mod 86400000)%Z in
  let z := (days + 719468)%Z in
  let era := (z / 146097)%Z in
  let doe := (z - era * 146097)%Z in
  let yoe := ((doe - doe / 1460 + doe / 36524 - doe / 146096) / 365)%Z in
  let doy := (doe - (365 * yoe + yoe / 4 - yoe / 100))%Z in
  let mp := ((5 * doy + 2) / 153)%Z in
  let d := (doy - (153 * mp + 2) / 5 + 1)%Z in
  let m := (if (mp <? 10)%Z then mp + 3 else mp - 9)%Z in
  let y := (yoe + era * 400 + (if (m <=? 2)%Z then 1 else 0))%Z in
  pad 4 y +:+ "-" +:+ pad 2 m +:+ "-" +:+ pad 2 d +:+ "T"
  +:+ pad 2 (ms / 3600000) +:+ ":" +:+ pad 2 (ms / 60000 mod 60) +:+ ":"
  +:+ pad 2 (ms / 1000 mod 60) +:+ "." +:+ pad 3 (ms mod 1000) +:+ "Z".

#[export] Instance ascii_runtime : JsRuntime := {|
  trim := ascii_trim;
  toUpperCase := ascii_toUpperCase;
  gt_zero := simple_gt_zero;
  JSON_stringify := fun v => inr (json_print "" v);
  toISOString := iso_of_instant;
  trim_empty := eq_refl;
  toUpperCase_empty := eq_refl;
  gt_zero_num := fun _ => eq_refl;
  gt_zero_undefined := eq_refl
|}.


(* ===================================================================== *)
(** * The other REST routes, the tool list, start-up                       *)
(* ===================================================================== *)

Section RestRoutes.
Context `{JsRuntime}.

(** [POST /api/list_table] of the REST variant: the body is destructured
    as it is (no [|| {}]), and the answer carries no count. *)
Definition post_api_list_table (body : jsval) : M HttpResponse :=
  try_catch
    (ensureSqlConnection ;;;
     parameters <- lift (destructure body "parameters") ;;
     schemaFilter <-
       (if truthy parameters && gt_zero (length_of parameters) then
          match parameters with
          | JArr ps =>
              ret ("AND TABLE_SCHEMA IN ("
                   +:+ String.concat ", " (map (fun p => "'" +:+ ToString p +:+ "'") ps)
                   +:+ ")")
          | _ => throw (JsTypeError "parameters.map is not a function")
          end
        else ret "") ;;
     recordset <-
       await_query
         (mkSqlRequest
            ("SELECT TABLE_SCHEMA + '.' + TABLE_NAME as [table] FROM INFORMATION_SCHEMA.TABLES WHERE TABLE_TYPE = 'BASE TABLE' "
             +:+ schemaFilter +:+ " ORDER BY TABLE_SCHEMA, TABLE_NAME")
            []) ;;
     ret (mkHttpResponse 200
            (JObj [("success", JBool true);
                   ("message", JStr "List tables executed successfully");
                   ("tables", JArr recordset)])))
    (fun error =>
       ret (mkHttpResponse 500
              (JObj [("success", JBool false);
                     ("error", JStr (error_message error))]))).

(** [POST /api/describe_table] of the REST variant. *)
Definition post_api_describe_table (body : jsval) : M HttpResponse :=
  try_catch
    (ensureSqlConnection ;;;
     tableName <- lift (destructure body "tableName") ;;
     if negb (truthy tableName) || negb (is_string tableName) then
       ret (mkHttpResponse 400
              (JObj [("success", JBool false);
                     ("error", JStr "tableName is required and must be a string")]))
     else
       recordset <-
         await_query
           (mkSqlRequest
              "SELECT COLUMN_NAME as name, DATA_TYPE as type FROM INFORMATION_SCHEMA.COLUMNS WHERE TABLE_NAME = @tableName"
              [("tableName", tableName)]) ;;
       ret (mkHttpResponse 200
              (JObj [("success", JBool true);
                     ("columns", JArr recordset)])))
    (fun error =>
       ret (mkHttpResponse 500
              (JObj [("success", JBool false);
                     ("error", JStr (error_message error))]))).

End RestRoutes.

(** A tool as [ListTools] advertises it: name, description, the
    properties of its input schema with their types, and the required
    ones. *)
Record Tool : Type := mkTool {
  tool_name : string;
  tool_description : string;
  tool_properties : list (string * string);
  tool_required : list string
}.

Definition tools : list Tool :=
  [mkTool "read_data" "Execute SELECT queries on the database"
          [("query", "string")] ["query"];
   mkTool "list_table" "List all tables in the database"
          [("parameters", "array")] [];
   mkTool "describe_table" "Get schema information for a specific table"
          [("tableName", "string")] ["tableName"]].



(** ** Measures the facts below count with *)



(** The state after calls made one after the other, each with the
    answers it got. *)
Definition calls_in_turn (envs : list Env) (s : State) : State :=
  fold_left (fun acc env => snd (fst (ensureSqlConnection env acc))) envs s.

(** A call that has returned, and how many of the calls have. *)
Definition is_done (p : pc) : bool :=
  match p with Done _ => true | _ => false end.

Definition count_done (tasks : list pc) : nat :=
  length (filter (fun p => is_done p = true) tasks).

(** Every transport is registered under its own identifier. *)
Definition keyed_by_id (m : gmap string Transport) : Prop :=
  forall id t, m !! id = Some t -> sessionId t = id.

(* ===================================================================== *)
(** * Invariants and inputs the facts below are stated with               *)
(* ===================================================================== *)

(** The statement [describe_table] sends, whatever the table. *)
Definition describe_statement : string :=
  "SELECT COLUMN_NAME as name, DATA_TYPE as type FROM INFORMATION_SCHEMA.COLUMNS WHERE TABLE_NAME = @tableName".

(** The result the handler builds in its [catch]. *)
Definition error_result (e : exn) : CallToolResult :=
  mkCallToolResult ("Error: " +:+ error_message e) true.


(** Whenever an expiry is stored, so is a non-empty token; and a provider
    whose tokens are never empty. *)
Definition token_with_expiry (s : State) : Prop :=
  globalTokenExpiresOn (shared s) <> None ->
  str_truthy (globalAccessToken (shared s)) = true.

Definition answers_token (env : Env) : Prop :=
  forall a, getToken_result env = inr a -> str_truthy (token <$> a) = true.

(** What holds of the process between any two stretches when the calls do
    not interleave. *)
Record serial_inv (sys : System) : Prop := mkSerialInv {
  inv_live_held :
    forall h, h ∈ live (driver (sys_state sys)) ->
              globalSqlPool (shared (sys_state sys)) = Some h;
  inv_live_old :
    forall h, h ∈ live (driver (sys_state sys)) ->
              h < next_handle (driver (sys_state sys));
  inv_closed_dead :
    forall h, h ∈ sys_closed sys ->
              (h ∉ live (driver (sys_state sys)))
              /\ h < next_handle (driver (sys_state sys));
  inv_closed_once : NoDup (sys_closed sys);
  inv_at_close :
    forall i c h, sys_tasks sys !! i = Some (AtClose c h) ->
                  globalSqlPool (shared (sys_state sys)) = Some h
                  /\ (h ∉ sys_closed sys)
                  /\ h < next_handle (driver (sys_state sys));
  inv_at_connect :
    forall i c, sys_tasks sys !! i = Some (AtConnect c) ->
                live (driver (sys_state sys)) = ∅
}.

(** A provider that answers with the given token and expiry, and a driver
    that does as asked and returns no rows. *)
Definition env_at (now : Z) (tok : string) (expires : Z) : Env :=
  mkEnv now now now (inr (Some (mkAccessToken tok (Some expires))))
        (inr tt) (inr tt) (fun _ => inr []).

(** Two calls one after the other: the first connects (pool 0); the second,
    the token being within two minutes of its expiry, closes pool 0 and
    opens pool 1, whose connection then drops. *)
Definition one_after_the_other : list action :=
  [Resume 0 (env_at 0 "T1" 1000000); Resume 0 (env_at 10 "T1" 1000000);
   Resume 0 (env_at 20 "T1" 1000000);
   Resume 1 (env_at 900000 "T2" 2000000); Resume 1 (env_at 900010 "T2" 2000000);
   Resume 1 (env_at 900020 "T2" 2000000); Resume 1 (env_at 900030 "T2" 2000000);
   Disconnect 1].


(** A world in which every outbound call fails. *)
Definition answers_nothing : Env :=
  mkEnv 0 0 0 (inl (JsError "no network")) (inl (JsError "no network"))
        (inl (JsError "no network")) (fun _ => inl (JsError "no network")).


(** A health probe as the platform sends it, and a guard with a key and the
    default limit of 100 requests per minute. *)
Definition health_probe : Request :=
  mkRequest "/health" None None None None None JUndefined.

Definition guarded : GuardConfig :=
  mkGuardConfig (Some "secret") true 100 60000.


(* ===================================================================== *)
(** * Connection manager: what a call does                                 *)
(* ===================================================================== *)

Ltac unfold_M :=
  unfold ensureSqlConnection, createSqlConfig, await_getToken, await_close,
    await_connect, await_query, set_shared, get_state, ask, lift, throw,
    ret, bind, try_catch in *.

(** The guard, taken apart. *)
Lemma connection_is_fresh_spec (now : Z) (s : State) :
  connection_is_fresh now s = true <->
  exists h tok e,
    globalSqlPool (shared s) = Some h /\ connected s h = true /\
    globalAccessToken (shared s) = Some tok /\ tok <> "" /\
    globalTokenExpiresOn (shared s) = Some e /\ (now + 120000 < e)%Z.
Proof.
  unfold connection_is_fresh, str_truthy. split.
  - destruct (globalSqlPool (shared s)) as [h|]; [|discriminate].
    destruct (connected s h) eqn:Hc; [|discriminate].
    destruct (globalAccessToken (shared s)) as [tok|]; [|discriminate].
    destruct (String.eqb_spec tok ""); [discriminate|].
    destruct (globalTokenExpiresOn (shared s)) as [e|]; [|discriminate].
    cbn [andb negb]. intros Hlt%Z.ltb_lt.
    exists h, tok, e. split_and!; done.
  - intros (h & tok & e & -> & -> & -> & Htok & -> & Hlt).
    destruct (String.eqb_spec tok ""); [contradiction|]. cbn [andb negb].
    apply Z.ltb_lt. lia.
Qed.

Lemma ensureSqlConnection_fresh (env : Env) (s : State) :
  connection_is_fresh (now_guard env) s = true ->
  ensureSqlConnection env s = (inr tt, s, []).
Proof. intros Hf. unfold_M. simpl. rewrite Hf. reflexivity. Qed.

Lemma store_token_shared a now s :
  shared (store_token a now s)
  = mkShared (globalSqlPool (shared s)) (token <$> a) (Some (expiresOn_of a now)).
Proof. reflexivity. Qed.

Lemma connected_pool_store_token a now s :
  connected_pool (store_token a now s) = connected_pool s.
Proof. reflexivity. Qed.

Lemma connected_pool_Some s h :
  connected_pool s = Some h <->
  globalSqlPool (shared s) = Some h /\ h ∈ live (driver s).
Proof.
  unfold connected_pool, connected.
  destruct (globalSqlPool (shared s)) as [h'|]; [|split; [done|intros [? _]; done]].
  case_bool_decide; split; try done.
  - intros [= <-]. done.
  - intros [[= <-] _]. done.
  - intros [[= <-] ?]. done.
Qed.

Lemma connected_pool_None s :
  connected_pool s = None <->
  forall h, globalSqlPool (shared s) = Some h -> h ∉ live (driver s).
Proof.
  unfold connected_pool, connected.
  destruct (globalSqlPool (shared s)) as [h'|]; [|done].
  case_bool_decide; split; try done.
  - intros Hall. exfalso. by apply (Hall h').
  - intros _ h [= <-]. done.
Qed.

(** What a refresh does, by the answers it gets. *)
Lemma ensureSqlConnection_refresh (env : Env) (s : State) :
  connection_is_fresh (now_guard env) s = false ->
  ensureSqlConnection env s =
  match getToken_result env with
  | inl e => (inl e, s, [EvGetToken])
  | inr a =>
      let c := mkSqlConfig (token <$> a) in
      let s1 := store_token a (now_config env) s in
      match connected_pool s with
      | Some h =>
          match close_result env with
          | inl e => (inl e, s1, [EvGetToken; EvClose h])
          | inr _ =>
              let d := mkDriver (live (driver s) ∖ {[h]}) (next_handle (driver s)) in
              match connect_result env with
              | inl e => (inl e, mkState (shared s1) d, [EvGetToken; EvClose h; EvConnect c])
              | inr _ =>
                  (inr tt,
                   mkState (mkShared (Some (next_handle d)) (token <$> a)
                                     (Some (expiresOn_of a (now_config env))))
                           (mkDriver ({[next_handle d]} ∪ live d) (S (next_handle d))),
                   [EvGetToken; EvClose h; EvConnect c])
              end
          end
      | None =>
          match connect_result env with
          | inl e => (inl e, s1, [EvGetToken; EvConnect c])
          | inr _ =>
              (inr tt,
               mkState (mkShared (Some (next_handle (driver s))) (token <$> a)
                                 (Some (expiresOn_of a (now_config env))))
                       (mkDriver ({[next_handle (driver s)]} ∪ live (driver s))
                                 (S (next_handle (driver s)))),
               [EvGetToken; EvConnect c])
          end
      end
  end.
Proof.
  intros Hf. unfold_M. simpl. rewrite Hf.
  destruct (getToken_result env) as [e|a]; [reflexivity|]. simpl.
  change (connected_pool _) with (connected_pool s) at 1.
  destruct (connected_pool s) as [h|]; simpl.
  - destruct (close_result env) as [e|[]]; [reflexivity|]. simpl.
    destruct (connect_result env) as [e|[]]; reflexivity.
  - destruct (connect_result env) as [e|[]]; reflexivity.
Qed.

(** A call that nothing interrupts is the function itself. *)
Lemma run_alone_ensureSqlConnection (env : Env) (s : State) :
  run_alone 4 env AtStart s =
  match ensureSqlConnection env s with
  | (r, s', tr) => (Done r, s', tr)
  end.
Proof.
  destruct (connection_is_fresh (now_guard env) s) eqn:Hf.
  - rewrite ensureSqlConnection_fresh by done. unfold run_alone, task_step.
    rewrite Hf. reflexivity.
  - rewrite ensureSqlConnection_refresh by done. unfold run_alone, task_step.
    rewrite Hf.
    destruct (getToken_result env) as [e|a]; [reflexivity|].
    rewrite connected_pool_store_token.
    destruct (connected_pool s) as [h|].
    + destruct (close_result env) as [e|[]]; [reflexivity|].
      destruct (connect_result env) as [e|[]]; reflexivity.
    + destruct (connect_result env) as [e|[]]; reflexivity.
Qed.

(** ** Returning at once *)




(** On a process that only ever received non-empty tokens the token test
    of the guard never decides: an expiry is never stored without one. *)
Lemma ensureSqlConnection_token_with_expiry (env : Env) (s : State) :
  answers_token env -> token_with_expiry s ->
  token_with_expiry (snd (fst (ensureSqlConnection env s))).
Proof.
  intros Henv Hs.
  destruct (connection_is_fresh (now_guard env) s) eqn:Hf.
  - rewrite ensureSqlConnection_fresh by done. done.
  - rewrite ensureSqlConnection_refresh by done.
    destruct (getToken_result env) as [e|a] eqn:Ha; [done|].
    specialize (Henv a Ha).
    destruct (connected_pool s) as [h|]; cbn zeta.
    + destruct (close_result env) as [e|[]]; [by intros _|].
      destruct (connect_result env) as [e|[]]; by intros _.
    + destruct (connect_result env) as [e|[]]; by intros _.
Qed.

Lemma ensureSqlConnection_noop_given_tokens
    (env : Env) (s : State) (h : handle) (e : Z) :
  token_with_expiry s ->
  globalSqlPool (shared s) = Some h ->
  connected s h = true ->
  globalTokenExpiresOn (shared s) = Some e ->
  (now_guard env + 120000 < e)%Z ->
  ensureSqlConnection env s = (inr tt, s, []).
Proof.
  intros Hinv Hp Hc He Hlt. apply ensureSqlConnection_fresh.
  unfold connection_is_fresh. rewrite Hp, Hc, Hinv, He by (by rewrite He).
  cbn [andb]. apply Z.ltb_lt. lia.
Qed.

(** ** Refreshing *)

(** Claim C5, as amended.  In a refresh, a held pool is closed first when it
    reports connected, and the connection is opened after the close has
    resolved; a held pool that does not report connected is not closed.
    The close is not best-effort: when it rejects, the call fails with that
    error and no connection is opened. *)
Theorem refresh_closes_connected_pool_first
    (env : Env) (s : State) (a : option AccessToken) (h : handle) :
  connection_is_fresh (now_guard env) s = false ->
  getToken_result env = inr a ->
  globalSqlPool (shared s) = Some h ->
  (connected s h = true ->
     (close_result env = inr tt ->
        snd (ensureSqlConnection env s)
        = [EvGetToken; EvClose h; EvConnect (mkSqlConfig (token <$> a))])
     /\ (forall e, close_result env = inl e ->
           ensureSqlConnection env s
           = (inl e, store_token a (now_config env) s, [EvGetToken; EvClose h])))
  /\ (connected s h = false ->
        snd (ensureSqlConnection env s)
        = [EvGetToken; EvConnect (mkSqlConfig (token <$> a))]).
Proof.
  intros Hf Ha Hp. rewrite ensureSqlConnection_refresh by done. rewrite Ha.
  unfold connected_pool. rewrite Hp. cbn zeta. split.
  - intros ->. split.
    + intros ->. destruct (connect_result env) as [e|[]]; reflexivity.
    + intros e ->. reflexivity.
  - intros ->. destruct (connect_result env) as [e|[]]; reflexivity.
Qed.

Lemma refresh_closes_connected_pool_first_witness :
  let s := mkState (mkShared (Some 0) (Some "old") (Some 1000%Z)) (mkDriver {[0]} 1) in
  let env := mkEnv 1000 1000 1000 (inr (Some (mkAccessToken "new" (Some 3600000%Z))))
                   (inr tt) (inr tt) (fun _ => inr []) in
  snd (ensureSqlConnection env s)
  = [EvGetToken; EvClose 0; EvConnect (mkSqlConfig (Some "new"))].
Proof.
  intros s env.
  apply (refresh_closes_connected_pool_first env s
           (Some (mkAccessToken "new" (Some 3600000%Z))) 0);
    [vm_compute; reflexivity | reflexivity | reflexivity
    | vm_compute; reflexivity | reflexivity].
Defined.

(** Claim C5 as stated fails twice.  With the held pool connected and the
    token expired, a rejected close makes the call fail with that error and
    open nothing; and a held pool that no longer reports connected is not
    closed before the new connection is opened. *)
Lemma refresh_close_error_not_swallowed :
  let env := mkEnv 1000 1000 1000 (inr (Some (mkAccessToken "new" (Some 3600000%Z))))
                   (inl (JsError "close failed")) (inr tt) (fun _ => inr []) in
  let s := mkState (mkShared (Some 0) (Some "old") (Some 1000%Z)) (mkDriver {[0]} 1) in
  let s_dropped := mkState (mkShared (Some 0) (Some "old") (Some 1000%Z)) (mkDriver ∅ 1) in
  ensureSqlConnection env s
    = (inl (JsError "close failed"),
       mkState (mkShared (Some 0) (Some "new") (Some 3600000%Z)) (mkDriver {[0]} 1),
       [EvGetToken; EvClose 0])
  /\ snd (ensureSqlConnection env s_dropped)
     = [EvGetToken; EvConnect (mkSqlConfig (Some "new"))].
Proof. vm_compute. split; reflexivity. Qed.

(** Claim C10.  On the refresh path the token and the expiry are stored in
    the stretch that ends by issuing the close (or the connect): the held
    pool and the driver are untouched at that point.  So when the connect
    then rejects, the call fails leaving the new token and expiry beside
    the pool held before (closed by then, if it was connected); and the
    same when the close rejects. *)
Theorem refresh_failure_keeps_new_token
    (env : Env) (s : State) (a : option AccessToken) :
  connection_is_fresh (now_guard env) s = false ->
  getToken_result env = inr a ->
  let s1 := store_token a (now_config env) s in
  (exists p tr, task_step env AtGetToken s = (p, s1, tr) /\ in_flight p = true)
  /\ shared s1 = mkShared (globalSqlPool (shared s)) (token <$> a)
                          (Some (expiresOn_of a (now_config env)))
  /\ (forall e, connect_result env = inl e ->
        match connected_pool s with
        | Some h =>
            close_result env = inr tt ->
            ensureSqlConnection env s
            = (inl e,
               mkState (shared s1)
                       (mkDriver (live (driver s) ∖ {[h]}) (next_handle (driver s))),
               [EvGetToken; EvClose h; EvConnect (mkSqlConfig (token <$> a))])
        | None =>
            ensureSqlConnection env s
            = (inl e, s1, [EvGetToken; EvConnect (mkSqlConfig (token <$> a))])
        end)
  /\ (forall e h, connected_pool s = Some h -> close_result env = inl e ->
        ensureSqlConnection env s = (inl e, s1, [EvGetToken; EvClose h])).
Proof.
  intros Hf Ha s1. split_and!.
  - unfold task_step. rewrite Ha. fold s1.
    change (connected_pool s1) with (connected_pool s).
    destruct (connected_pool s) as [h|]; eauto.
  - reflexivity.
  - intros e He. rewrite ensureSqlConnection_refresh by done. rewrite Ha, He.
    destruct (connected_pool s) as [h|]; [|reflexivity].
    intros ->. reflexivity.
  - intros e h Hh He. rewrite ensureSqlConnection_refresh by done.
    rewrite Ha, Hh, He. reflexivity.
Qed.

Lemma refresh_failure_keeps_new_token_witness :
  let s := mkState (mkShared (Some 0) (Some "old") (Some 1000%Z)) (mkDriver {[0]} 1) in
  let env := mkEnv 1000 1000 1000 (inr (Some (mkAccessToken "new" (Some 3600000%Z))))
                   (inr tt) (inl (JsError "unreachable")) (fun _ => inr []) in
  ensureSqlConnection env s
  = (inl (JsError "unreachable"),
     mkState (mkShared (Some 0) (Some "new") (Some 3600000%Z))
             (mkDriver ({[0]} ∖ {[0]}) 1),
     [EvGetToken; EvClose 0; EvConnect (mkSqlConfig (Some "new"))]).
Proof.
  intros s env.
  pose proof (refresh_failure_keeps_new_token env s
                (Some (mkAccessToken "new" (Some 3600000%Z)))
                ltac:(vm_compute; reflexivity) eq_refl) as (_ & _ & Hconnect & _).
  apply (Hconnect (JsError "unreachable") eq_refl eq_refl).
Defined.

(** ** Calls one after the other: one pool at a time *)

Lemma serial_inv_init (n : nat) : serial_inv (sys_init n).
Proof.
  split; simpl.
  - intros h Hh. set_solver.
  - intros h Hh. set_solver.
  - intros h Hh. by apply elem_of_nil in Hh.
  - constructor.
  - intros i c h Hi. apply lookup_replicate in Hi as [? _]. done.
  - done.
Qed.

Lemma others_idle_lookup (i j : nat) (tasks : list pc) (p : pc) :
  others_idle i tasks = true -> j <> i -> tasks !! j = Some p ->
  in_flight p = false.
Proof.
  unfold others_idle. rewrite forallb_forall. intros Hall Hne Hj.
  apply negb_true_iff, Hall, list_elem_of_In.
  destruct (decide (j < i)) as [Hlt|Hge].
  - apply list_elem_of_lookup. exists j. by rewrite list_lookup_delete_lt.
  - apply list_elem_of_lookup. exists (pred j).
    rewrite list_lookup_delete_ge by lia.
    replace (S (pred j)) with j by lia. done.
Qed.

(** After call [i] moved to [p'], the calls in flight are [p'] at most. *)
Lemma lookup_after_resume (i j : nat) (tasks : list pc) (p p' q : pc) :
  others_idle i tasks = true -> tasks !! i = Some p ->
  <[i := p']> tasks !! j = Some q -> in_flight q = true ->
  j = i /\ q = p'.
Proof.
  intros Hidle Hi Hj Hq. destruct (decide (j = i)) as [->|Hne].
  - rewrite list_lookup_insert_eq in Hj by (by eapply lookup_lt_Some).
    by injection Hj as <-.
  - rewrite list_lookup_insert_ne in Hj by done.
    rewrite (others_idle_lookup i j tasks q) in Hq by done. done.
Qed.

Lemma serial_inv_disconnect (h : handle) (sys : System) :
  serial_inv sys -> serial_inv (sys_step (Disconnect h) sys).
Proof.
  intros [Hheld Hold Hdead Honce Hclose Hconnect]. split; simpl.
  - intros h' Hh'. apply Hheld. set_solver.
  - intros h' Hh'. apply Hold. set_solver.
  - intros h' Hh'. destruct (Hdead h' Hh'). split; [set_solver|done].
  - done.
  - done.
  - intros i c Hi. rewrite (Hconnect i c Hi). set_solver.
Qed.

Lemma serial_inv_resume (i : nat) (env : Env) (sys : System) :
  serial_inv sys -> others_idle i (sys_tasks sys) = true ->
  serial_inv (sys_step (Resume i env) sys).
Proof.
  intros Hinv Hidle. pose proof Hinv as [Hheld Hold Hdead Honce Hclose Hconnect].
  simpl. destruct (sys_tasks sys !! i) as [p|] eqn:Hi; [|done].
  assert (Hsame : forall p', in_flight p' = false ->
            serial_inv (mkSystem (sys_state sys) (<[i := p']> (sys_tasks sys))
                          (sys_closed sys) (sys_trace sys))).
  { intros p' Hp'. split; simpl; try done.
    - intros j c h Hj.
      by destruct (lookup_after_resume i j _ p p' _ Hidle Hi Hj eq_refl) as [_ <-].
    - intros j c Hj.
      by destruct (lookup_after_resume i j _ p p' _ Hidle Hi Hj eq_refl) as [_ <-]. }
  destruct p as [| |c h|c|r]; unfold task_step.
  - (* the guard *)
    destruct (connection_is_fresh _ _); simpl.
    + rewrite app_nil_r. by apply Hsame.
    + split; simpl; try done.
      * intros j c h Hj.
        by destruct (lookup_after_resume i j _ _ _ _ Hidle Hi Hj eq_refl) as [_ [=]].
      * intros j c Hj.
        by destruct (lookup_after_resume i j _ _ _ _ Hidle Hi Hj eq_refl) as [_ [=]].
  - (* the token arrived *)
    destruct (getToken_result env) as [e|a].
    { simpl. rewrite app_nil_r. by apply Hsame. }
    cbn zeta. rewrite connected_pool_store_token.
    destruct (connected_pool (sys_state sys)) as [h|] eqn:Hcp.
    + apply connected_pool_Some in Hcp as [Hpool Hlive].
      split; simpl; try done.
      * intros j c h' Hj.
        destruct (lookup_after_resume i j _ _ _ _ Hidle Hi Hj eq_refl) as [_ [= _ ->]].
        split_and!; [done| |by apply Hold].
        intros Hcl. by destruct (Hdead h Hcl).
      * intros j c Hj.
        by destruct (lookup_after_resume i j _ _ _ _ Hidle Hi Hj eq_refl) as [_ [=]].
    + assert (Hempty : live (driver (sys_state sys)) = ∅).
      { apply set_eq. intros h. split; [|set_solver]. intros Hh.
        exfalso. eapply connected_pool_None; eauto. }
      split; simpl; try done.
      * intros j c h' Hj.
        by destruct (lookup_after_resume i j _ _ _ _ Hidle Hi Hj eq_refl) as [_ [=]].
  - (* the close settled *)
    destruct (Hclose i c h Hi) as (Hpool & Hfresh & Hlt).
    simpl. destruct (close_result env) as [e|[]]; simpl.
    { rewrite app_nil_r. by apply Hsame. }
    assert (Hempty : live (driver (sys_state sys)) ∖ {[h]} = ∅).
    { apply set_eq. intros h'. split; [|set_solver]. intros Hh'.
      apply elem_of_difference in Hh' as [Hin Hne].
      apply Hheld in Hin. rewrite Hpool in Hin. injection Hin as ->. set_solver. }
    split; simpl.
    + intros h' Hh'. rewrite Hempty in Hh'. set_solver.
    + intros h' Hh'. rewrite Hempty in Hh'. set_solver.
    + intros h' Hh'. rewrite Hempty. split; [set_solver|].
      apply elem_of_cons in Hh' as [->|Hh']; [done|]. by apply Hdead.
    + by constructor.
    + intros j c' h' Hj.
      by destruct (lookup_after_resume i j _ _ _ _ Hidle Hi Hj eq_refl) as [_ [=]].
    + done.
  - (* the connect settled *)
    pose proof (Hconnect i c Hi) as Hempty.
    simpl. destruct (connect_result env) as [e|[]]; simpl.
    { rewrite app_nil_r. by apply Hsame. }
    split; simpl.
    + intros h Hh. rewrite Hempty in Hh. f_equal. set_solver.
    + intros h Hh. rewrite Hempty in Hh.
      assert (h = next_handle (driver (sys_state sys))) as -> by set_solver. lia.
    + intros h Hh. destruct (Hdead h Hh) as [_ Hlt]. rewrite Hempty.
      split; [|lia]. intros Hin.
      assert (h = next_handle (driver (sys_state sys))) by set_solver. lia.
    + done.
    + intros j c' h' Hj.
      by destruct (lookup_after_resume i j _ _ _ _ Hidle Hi Hj eq_refl) as [_ [=]].
    + intros j c' Hj.
      by destruct (lookup_after_resume i j _ _ _ _ Hidle Hi Hj eq_refl) as [_ [=]].
  - (* already returned *)
    simpl. rewrite app_nil_r. by apply Hsame.
Qed.

Lemma serial_inv_run (sched : list action) (sys : System) :
  serial_inv sys -> serialized sched sys = true ->
  serial_inv (sys_run sched sys).
Proof.
  revert sys. induction sched as [|a rest IH]; intros sys Hinv Hser; [done|].
  simpl in Hser. apply andb_true_iff in Hser as [Hnow Hrest].
  simpl. apply IH; [|done].
  destruct a as [i env|h].
  - by apply serial_inv_resume.
  - by apply serial_inv_disconnect.
Qed.






(** Outside acquisition, the SIGTERM handler closes the held pool without
    asking whether it is connected: after a refresh whose connect failed,
    it closes the pool the refresh had already closed. *)
Lemma sigterm_closes_held_pool_again :
  let env := mkEnv 900000 900000 900000
                   (inr (Some (mkAccessToken "T2" (Some 2000000%Z))))
                   (inr tt) (inl (JsError "unreachable")) (fun _ => inr []) in
  let s := mkState (mkShared (Some 0) (Some "T1") (Some 1000000%Z)) (mkDriver {[0]} 1) in
  snd (ensureSqlConnection env s)
    = [EvGetToken; EvClose 0; EvConnect (mkSqlConfig (Some "T2"))]
  /\ snd (onSigterm env (snd (fst (ensureSqlConnection env s)))) = [EvClose 0].
Proof. vm_compute. split; reflexivity. Qed.

(* ===================================================================== *)
(** * Query executors and the tool-call handler: facts                     *)
(* ===================================================================== *)

Section ExecutorFacts.
Context `{JsRuntime}.

Lemma startsWith_empty (p : string) : p <> "" -> startsWith "" p = false.
Proof. destruct p; [done|reflexivity]. Qed.

(** The argument check of [read_data], by cases on what [query] is. *)
Lemma read_data_check (query : jsval) :
  negb (truthy query) || negb (is_string query) = false ->
  exists q, query = JStr q /\ q <> "".
Proof.
  destruct query as [| | | |q| |]; simpl; try done.
  - by destruct b.
  - by destruct (n =? 0)%Z.
  - destruct (String.eqb_spec q ""); [done|]. eauto.
Qed.

(** Claim C1.  [executeReadData] rejects, before any outbound call and
    leaving the state alone, every argument whose [query] is missing, is
    not a string, or does not begin with SELECT once trimmed and
    upper-cased: it throws the error of the failed destructuring or one of
    its two validation errors.  A [query] string that does begin with
    SELECT once trimmed and upper-cased passes, and exactly that string
    (untrimmed, in its own case, with no inputs) is the one statement sent
    to the database; the rows that come back are returned with their
    count, a database error is rethrown. *)
Theorem executeReadData_select_only (args : jsval) (env : Env) (s : State) :
  ((forall q, destructure args "query" = inr (JStr q) ->
              startsWith (toUpperCase (trim q)) "SELECT" = false) ->
   exists e, executeReadData args env s = (inl e, s, [])
             /\ (destructure args "query" = inl e
                 \/ e = JsError "Query is required and must be a string"
                 \/ e = JsError "Only SELECT queries are allowed"))
  /\ (forall q, destructure args "query" = inr (JStr q) ->
                startsWith (toUpperCase (trim q)) "SELECT" = true ->
      exists r, executeReadData args env s = (r, s, [EvQuery (mkSqlRequest q [])])
                /\ (forall e, query_result env (mkSqlRequest q []) = inl e -> r = inl e)
                /\ (forall rows, query_result env (mkSqlRequest q []) = inr rows ->
                      exists fields,
                        r = inr (JObj fields)
                        /\ assoc "success" fields = Some (JBool true)
                        /\ assoc "data" fields = Some (JArr rows)
                        /\ assoc "recordCount" fields
                           = Some (JNum (Z.of_nat (length rows))))).
Proof.
  unfold executeReadData. unfold_M. split.
  - intros Hno. destruct (destructure args "query") as [e|query] eqn:Hq.
    { exists e. auto. }
    destruct (negb (truthy query) || negb (is_string query)) eqn:Hcheck.
    { eexists. split; [reflexivity|auto]. }
    destruct (read_data_check query Hcheck) as (q & -> & Hq').
    simpl. rewrite (Hno q eq_refl). simpl. eexists. split; [reflexivity|auto].
  - intros q -> Hsel.
    assert (Hq : q <> "").
    { intros ->. rewrite trim_empty, toUpperCase_empty in Hsel. done. }
    simpl. destruct (String.eqb_spec q ""); [done|]. simpl. rewrite Hsel. simpl.
    destruct (query_result env (mkSqlRequest q [])) as [e|rows].
    + eexists. split; [reflexivity|]. split; [by intros ? [= ->]|done].
    + eexists. split; [reflexivity|]. split; [done|].
      intros ? [= <-]. eexists. split; [reflexivity|]. done.
Qed.

(** The REST route checks the same way, after acquiring the connection:
    the rejected query is never sent, and the answer is 400 once the
    connection is there (500 when acquiring it failed). *)
Lemma post_api_read_data_rejects (body : jsval) (env : Env) (s : State) (query : jsval) :
  destructure body "query" = inr query ->
  (forall q, query = JStr q -> startsWith (toUpperCase (trim q)) "SELECT" = false) ->
  exists r, post_api_read_data body env s
            = (inr r, snd (fst (ensureSqlConnection env s)),
               snd (ensureSqlConnection env s))
            /\ status r = (match fst (fst (ensureSqlConnection env s)) with
                           | inl _ => 500
                           | inr _ => 400
                           end)%Z.
Proof.
  intros Hq Hno. unfold post_api_read_data, try_catch, bind at 1.
  destruct (ensureSqlConnection env s) as [[[e|[]] s1] tr1]; simpl.
  { rewrite app_nil_r. eexists. split; [reflexivity|done]. }
  unfold lift, bind, ret. rewrite Hq.
  destruct (negb (truthy query) || negb (is_string query)) eqn:Hcheck.
  { rewrite !app_nil_r. eexists. split; [reflexivity|done]. }
  destruct (read_data_check query Hcheck) as (q & -> & Hq').
  simpl. rewrite (Hno q eq_refl). simpl. rewrite !app_nil_r.
  eexists. split; [reflexivity|done].
Qed.

Lemma executor_for_unknown (name : string) :
  name <> "read_data" -> name <> "list_table" -> name <> "describe_table" ->
  executor_for name = None.
Proof.
  intros H1 H2 H3. unfold executor_for.
  destruct (String.eqb_spec name "read_data"); [done|].
  destruct (String.eqb_spec name "list_table"); [done|].
  destruct (String.eqb_spec name "describe_table"); [done|]. done.
Qed.

(** [describe_table] binds the table name as an input; the statement text
    does not depend on it. *)
Lemma executeDescribeTable_binds_name (args : jsval) (t : string) (env : Env) (s : State) :
  destructure args "tableName" = inr (JStr t) -> t <> "" ->
  exists r, executeDescribeTable args env s
            = (r, s, [EvQuery (mkSqlRequest describe_statement [("tableName", JStr t)])]).
Proof.
  intros Ht Hne. unfold executeDescribeTable. unfold_M. rewrite Ht. simpl.
  destruct (String.eqb_spec t ""); [done|]. simpl.
  destruct (query_result env _); eauto.
Qed.

(** [list_table] without schema names sends the plain catalog query; a
    [parameters] that is a string has a positive [length] and no [map]. *)
Lemma executeListTable_no_parameters (env : Env) (s : State) :
  snd (executeListTable JUndefined env s)
  = [EvQuery (mkSqlRequest
       "SELECT TABLE_SCHEMA + '.' + TABLE_NAME as [table] FROM INFORMATION_SCHEMA.TABLES WHERE TABLE_TYPE = 'BASE TABLE'  ORDER BY TABLE_SCHEMA, TABLE_NAME"
       [])].
Proof.
  unfold executeListTable. unfold_M. simpl.
  destruct (query_result env _); reflexivity.
Qed.

Lemma executeListTable_string_parameters (p : string) (env : Env) (s : State) :
  p <> "" ->
  executeListTable (JObj [("parameters", JStr p)]) env s
  = (inl (JsTypeError "parameters.map is not a function"), s, []).
Proof.
  intros Hne. unfold executeListTable. unfold_M. simpl.
  destruct (String.eqb_spec p ""); [done|]. simpl.
  rewrite gt_zero_num.
  destruct p; [done|]. reflexivity.
Qed.

(** The handler, by the answers it gets. *)
Lemma callTool_unfold (name : string) (args : jsval) (env : Env) (s : State) :
  callTool name args env s =
  match ensureSqlConnection env s with
  | (inl e, s1, tr1) => (inr (error_result e), s1, tr1)
  | (inr _, s1, tr1) =>
      match executor_for name with
      | Some execute =>
          match execute args env s1 with
          | (inl e, s2, tr2) => (inr (error_result e), s2, tr1 ++ tr2)
          | (inr result, s2, tr2) =>
              match JSON_stringify result with
              | inl e => (inr (error_result e), s2, tr1 ++ tr2)
              | inr text => (inr (mkCallToolResult text false), s2, tr1 ++ tr2)
              end
          end
      | None => (inr (mkCallToolResult ("Unknown tool: " +:+ name) true), s1, tr1)
      end
  end.
Proof.
  unfold callTool, callTool_body, try_catch, bind at 1.
  destruct (ensureSqlConnection env s) as [[[e|[]] s1] tr1].
  { simpl. by rewrite app_nil_r. }
  destruct (executor_for name) as [execute|].
  - unfold bind, lift, ret.
    destruct (execute args env s1) as [[[e|result] s2] tr2].
    + simpl. by rewrite !app_nil_r.
    + destruct (JSON_stringify result); simpl; by rewrite !app_nil_r.
  - unfold ret. simpl. by rewrite !app_nil_r.
Qed.

(** Claim C9.  The tool-call handler always returns a result: no error
    escapes it.  An error of the connection acquisition, or one thrown by
    the executor the name selects (validation or database), comes back as
    a result flagged [isError] whose text is the error's message; a name
    that selects no executor comes back as a result flagged [isError]. *)
Theorem callTool_returns_errors_as_results
    (name : string) (args : jsval) (env : Env) (s : State) :
  (exists r s' tr, callTool name args env s = (inr r, s', tr))
  /\ (forall e s1 tr1,
        ensureSqlConnection env s = (inl e, s1, tr1) ->
        callTool name args env s = (inr (error_result e), s1, tr1))
  /\ (forall s1 tr1 execute e s2 tr2,
        ensureSqlConnection env s = (inr tt, s1, tr1) ->
        executor_for name = Some execute ->
        execute args env s1 = (inl e, s2, tr2) ->
        callTool name args env s = (inr (error_result e), s2, tr1 ++ tr2))
  /\ (name <> "read_data" -> name <> "list_table" -> name <> "describe_table" ->
      (forall s1 tr1,
         ensureSqlConnection env s = (inr tt, s1, tr1) ->
         callTool name args env s
         = (inr (mkCallToolResult ("Unknown tool: " +:+ name) true), s1, tr1))
      /\ (forall r s' tr, callTool name args env s = (inr r, s', tr) ->
                          isError r = true)).
Proof.
  rewrite callTool_unfold. split_and!.
  - destruct (ensureSqlConnection env s) as [[[e|[]] s1] tr1]; [eauto|].
    destruct (executor_for name) as [execute|]; [|eauto].
    destruct (execute args env s1) as [[[e|result] s2] tr2]; [eauto|].
    destruct (JSON_stringify result); eauto.
  - by intros e s1 tr1 ->.
  - intros s1 tr1 execute e s2 tr2 -> -> ->. done.
  - intros H1 H2 H3. rewrite executor_for_unknown by done. split.
    + by intros s1 tr1 ->.
    + destruct (ensureSqlConnection env s) as [[[e|[]] s1] tr1];
        by intros r s' tr [= <- _ _].
Qed.

End ExecutorFacts.

Lemma executeReadData_select_only_witness :
  (exists e,
     executeReadData (JObj [("query", JStr "DROP TABLE t")]) answers_nothing initial_state
     = (inl e, initial_state, [])
     /\ (destructure (JObj [("query", JStr "DROP TABLE t")]) "query" = inl e
         \/ e = JsError "Query is required and must be a string"
         \/ e = JsError "Only SELECT queries are allowed"))
  /\ (exists r,
        executeReadData (JObj [("query", JStr "  select 1")])
                        (env_at 0 "T" 1000000) initial_state
        = (r, initial_state, [EvQuery (mkSqlRequest "  select 1" [])])
        /\ (forall e, query_result (env_at 0 "T" 1000000) (mkSqlRequest "  select 1" []) = inl e
                      -> r = inl e)
        /\ (forall rows,
              query_result (env_at 0 "T" 1000000) (mkSqlRequest "  select 1" []) = inr rows ->
              exists fields,
                r = inr (JObj fields)
                /\ assoc "success" fields = Some (JBool true)
                /\ assoc "data" fields = Some (JArr rows)
                /\ assoc "recordCount" fields = Some (JNum (Z.of_nat (length rows))))).
Proof.
  split.
  - apply (proj1 (executeReadData_select_only
                    (JObj [("query", JStr "DROP TABLE t")]) answers_nothing initial_state)).
    intros q [= <-]. vm_compute. reflexivity.
  - apply (proj2 (executeReadData_select_only
                    (JObj [("query", JStr "  select 1")])
                    (env_at 0 "T" 1000000) initial_state) "  select 1").
    + reflexivity.
    + vm_compute. reflexivity.
Defined.

(** Schema names are interpolated as quoted literals. *)
Example executeListTable_sales :
  snd (executeListTable (JObj [("parameters", JArr [JStr "Sales"; JStr "dbo"])])
                        (env_at 0 "T" 1000000) initial_state)
  = [EvQuery (mkSqlRequest
       "SELECT TABLE_SCHEMA + '.' + TABLE_NAME as [table] FROM INFORMATION_SCHEMA.TABLES WHERE TABLE_TYPE = 'BASE TABLE' AND TABLE_SCHEMA IN ('Sales', 'dbo') ORDER BY TABLE_SCHEMA, TABLE_NAME"
       [])].
Proof. vm_compute. reflexivity. Qed.

Lemma callTool_returns_errors_as_results_witness :
  callTool "read_data" (JObj [("query", JStr "select 1")]) answers_nothing initial_state
  = (inr (error_result (JsError "no network")), initial_state, [EvGetToken])
  /\ callTool "drop_table" JUndefined (env_at 0 "T" 1000000) initial_state
     = (inr (mkCallToolResult "Unknown tool: drop_table" true),
        mkState (mkShared (Some 0) (Some "T") (Some 1000000%Z)) (mkDriver ({[0]} ∪ ∅) 1),
        [EvGetToken; EvConnect (mkSqlConfig (Some "T"))]).
Proof.
  split.
  - apply (proj1 (proj2 (callTool_returns_errors_as_results
                           "read_data" (JObj [("query", JStr "select 1")])
                           answers_nothing initial_state))).
    vm_compute. reflexivity.
  - apply (proj1 (proj2 (proj2 (proj2 (callTool_returns_errors_as_results
                           "drop_table" JUndefined (env_at 0 "T" 1000000) initial_state)))
                   ltac:(discriminate) ltac:(discriminate) ltac:(discriminate))).
    vm_compute. reflexivity.
Defined.

(* ===================================================================== *)
(** * Session registry and message routing: facts                          *)
(* ===================================================================== *)

(** An empty header or parameter counts as missing: no identifier, no
    lookup. *)
Lemma post_sse_without_identifier (req : Request) (transports : gmap string Transport) :
  str_truthy (js_or (x_mcp_session_id req) (query_sessionId req)) = false ->
  post_sse req transports
  = (Respond (mkHttpResponse 400 (JObj [("error", JStr "Missing session ID")])), []).
Proof. intros Hno. unfold post_sse. by rewrite Hno. Qed.

Lemma post_sse_with_identifier (req : Request) (transports : gmap string Transport)
    (sid : string) :
  js_or (x_mcp_session_id req) (query_sessionId req) = Some sid -> sid <> "" ->
  post_sse req transports
  = match transports !! sid with
    | None =>
        (Respond (mkHttpResponse 404 (JObj [("error", JStr "Session not found")])), [sid])
    | Some t => (HandlePostMessage t (body req), [sid])
    end.
Proof.
  intros Hsid Hne. unfold post_sse. rewrite Hsid. simpl.
  destruct (String.eqb_spec sid ""); [done|]. reflexivity.
Qed.

(** Claim C7.  A message with neither the [x-mcp-session-id] header nor the
    [sessionId] parameter is answered 400 (Missing session ID) without any
    registry lookup.  A message whose identifier (the header's, else the
    parameter's) is not in the registry is answered 404 (Session not
    found).  The body is handed to a transport's [handlePostMessage] only
    when the identifier resolves, and then to the transport it resolves
    to. *)
Theorem post_sse_routes_by_session (req : Request) (transports : gmap string Transport) :
  (x_mcp_session_id req = None -> query_sessionId req = None ->
   post_sse req transports
   = (Respond (mkHttpResponse 400 (JObj [("error", JStr "Missing session ID")])), []))
  /\ (forall sid,
        js_or (x_mcp_session_id req) (query_sessionId req) = Some sid -> sid <> "" ->
        (transports !! sid = None ->
         post_sse req transports
         = (Respond (mkHttpResponse 404 (JObj [("error", JStr "Session not found")])),
            [sid]))
        /\ (forall t, transports !! sid = Some t ->
              post_sse req transports = (HandlePostMessage t (body req), [sid])))
  /\ (forall t message lookups,
        post_sse req transports = (HandlePostMessage t message, lookups) ->
        exists sid,
          js_or (x_mcp_session_id req) (query_sessionId req) = Some sid
          /\ transports !! sid = Some t /\ message = body req).
Proof.
  split_and!.
  - intros Hh Hq. apply post_sse_without_identifier. by rewrite Hh, Hq.
  - intros sid Hsid Hne. rewrite (post_sse_with_identifier _ _ sid) by done.
    split; [by intros ->|]. by intros t ->.
  - intros t message lookups. unfold post_sse.
    destruct (js_or _ _) as [sid|]; simpl; [|done].
    destruct (String.eqb sid ""); simpl; [done|].
    destruct (transports !! sid) as [t'|] eqn:Ht; [|done].
    intros [= <- <- _]. eauto.
Qed.

Lemma post_sse_routes_by_session_witness :
  post_sse (mkRequest "/sse" None None None None None (JObj []))
           {["abc" := mkTransport "abc" 7]}
  = (Respond (mkHttpResponse 400 (JObj [("error", JStr "Missing session ID")])), [])
  /\ post_sse (mkRequest "/sse" None None (Some "xyz") None (Some "abc") (JObj []))
              {["abc" := mkTransport "abc" 7]}
     = (Respond (mkHttpResponse 404 (JObj [("error", JStr "Session not found")])), ["xyz"])
  /\ post_sse (mkRequest "/sse" None None None None (Some "abc") (JNum 1))
              {["abc" := mkTransport "abc" 7]}
     = (HandlePostMessage (mkTransport "abc" 7) (JNum 1), ["abc"]).
Proof.
  split_and!.
  - apply (proj1 (post_sse_routes_by_session _ _)); reflexivity.
  - apply (proj1 (proj1 (proj2 (post_sse_routes_by_session
             (mkRequest "/sse" None None (Some "xyz") None (Some "abc") (JObj []))
             {["abc" := mkTransport "abc" 7]})) "xyz" eq_refl ltac:(discriminate))).
    vm_compute. reflexivity.
  - apply (proj2 (proj1 (proj2 (post_sse_routes_by_session
             (mkRequest "/sse" None None None None (Some "abc") (JNum 1))
             {["abc" := mkTransport "abc" 7]})) "abc" eq_refl ltac:(discriminate))).
    vm_compute. reflexivity.
Defined.

Lemma registry_step_keeps_absent (ops : list registry_op) (m : gmap string Transport)
    (id : string) :
  (forall t, In (Open t) ops -> sessionId t <> id) ->
  m !! id = None ->
  fold_left registry_step ops m !! id = None.
Proof.
  revert m. induction ops as [|op ops IH]; intros m Hops Hm; [done|].
  simpl. apply IH.
  - intros t Ht. apply Hops. by right.
  - destruct op as [t|t]; simpl.
    + unfold get_sse. rewrite lookup_insert_ne; [done|]. apply Hops. by left.
    + unfold onclose. destruct (decide (sessionId t = id)) as [->|Hne].
      * apply lookup_delete_eq.
      * by rewrite lookup_delete_ne.
Qed.

(** Claim C8.  Once a session opened by [GET /sse] has closed (its
    [onclose] callback ran), looking its identifier up finds nothing, at
    once and after any further openings and closings of other sessions,
    and a message posted for it is answered 404.  Removal is idempotent:
    the callback running again, or for an identifier that is not
    registered, changes nothing and does not fail. *)
Theorem closed_session_is_not_found (t : Transport) (m : gmap string Transport) :
  onclose t (get_sse t m) !! sessionId t = None
  /\ (forall ops,
        (forall t', In (Open t') ops -> sessionId t' <> sessionId t) ->
        fold_left registry_step ops (onclose t (get_sse t m)) !! sessionId t = None)
  /\ (forall req,
        js_or (x_mcp_session_id req) (query_sessionId req) = Some (sessionId t) ->
        sessionId t <> "" ->
        post_sse req (onclose t (get_sse t m))
        = (Respond (mkHttpResponse 404 (JObj [("error", JStr "Session not found")])),
           [sessionId t]))
  /\ onclose t (onclose t m) = onclose t m
  /\ (m !! sessionId t = None -> onclose t m = m).
Proof.
  assert (Hgone : onclose t (get_sse t m) !! sessionId t = None)
    by apply lookup_delete_eq.
  split_and!.
  - done.
  - intros ops Hops. by apply registry_step_keeps_absent.
  - intros req Hsid Hne.
    rewrite (post_sse_with_identifier _ _ (sessionId t)) by done. by rewrite Hgone.
  - unfold onclose. apply delete_id, lookup_delete_eq.
  - intros Habsent. unfold onclose. by apply delete_id.
Qed.

Lemma closed_session_is_not_found_witness :
  fold_left registry_step [Open (mkTransport "s2" 2); Close (mkTransport "s2" 2)]
            (onclose (mkTransport "s1" 1) (get_sse (mkTransport "s1" 1) ∅)) !! "s1"
  = None.
Proof.
  apply (proj1 (proj2 (closed_session_is_not_found (mkTransport "s1" 1) ∅))
           [Open (mkTransport "s2" 2); Close (mkTransport "s2" 2)]).
  intros t' [[= <-]|[[=]|[]]]. discriminate.
Defined.

(* ===================================================================== *)
(** * Access guard: facts                                                  *)
(* ===================================================================== *)

(** The credential check lets the health path through, whatever the
    request presents. *)
Lemma apiKeyAuth_skips_health (key : option string) (req : Request) :
  path req = "/health" -> apiKeyAuth key req = Next.
Proof. intros Hp. unfold apiKeyAuth. by rewrite Hp. Qed.

(** So the guard never answers a health request 401 or 403. *)
Lemma access_guard_health_not_refused
    (cfg : GuardConfig) (req : Request) (now : Z)
    (requestCounts : gmap string RateRecord) (r : HttpResponse) :
  path req = "/health" ->
  fst (access_guard cfg req now requestCounts) = Reply r ->
  status r = 429%Z.
Proof.
  intros Hp. unfold access_guard.
  destruct (str_truthy (API_KEY cfg)); [|done].
  rewrite apiKeyAuth_skips_health by done.
  destruct (ENABLE_RATE_LIMITING cfg); [|done].
  unfold rateLimiter.
  destruct (requestCounts !! rateLimiter_key req) as [record|]; [|done].
  destruct (resetTime record <? now)%Z; [done|].
  destruct (RATE_LIMIT_MAX cfg <=? count record)%Z; [|done].
  by intros [= <-].
Qed.

(** Claim C4 fails on the code: the rate limiter has no exemption for the
    health path.  With the guard configured (a key, rate limiting on, 100
    requests per minute), the first health probe is counted under the
    key [anonymous], and the 101st probe of the same minute is answered
    429 Too Many Requests. *)
Example health_probe_is_rate_limited :
  let probes := map (fun i => (health_probe, Z.of_nat i)) (seq 0 101) in
  snd (access_guard guarded health_probe 0 ∅) !! "anonymous"
    = Some (mkRateRecord 1 60000)
  /\ last (fst (guard_run guarded probes ∅))
     = Some (Reply (mkHttpResponse 429
                      (JObj [("error", JStr "Too Many Requests");
                             ("message", JStr "Rate limit exceeded. Try again in 60 seconds.");
                             ("retryAfter", JNum 60)]))).
Proof. vm_compute. split; reflexivity. Qed.

(** When a header carries the credential, the rate limiter counts under
    the credential [apiKeyAuth] checks. *)
Lemma rateLimiter_key_from_headers (req : Request) (k : string) :
  js_or (x_api_key req) (bearer req) = Some k -> k <> "" ->
  requestKey req = Some k /\ rateLimiter_key req = k.
Proof.
  intros Hk Hne. unfold requestKey, rateLimiter_key. rewrite Hk.
  unfold js_or, str_truthy.
  destruct (String.eqb_spec k ""); [done|]. done.
Qed.

(** Claim C6 fails on the code: the rate limiter does not read the
    [apiKey] query parameter.  A request that presents the configured key
    through that parameter passes the credential check with it, and is
    counted under [anonymous]. *)
Example query_credential_counted_as_anonymous :
  let req := mkRequest "/sse" None None None (Some "secret") None JUndefined in
  requestKey req = Some "secret"
  /\ apiKeyAuth (Some "secret") req = Next
  /\ rateLimiter_key req = "anonymous"
  /\ snd (access_guard guarded req 0 ∅) !! "secret" = None
  /\ snd (access_guard guarded req 0 ∅) !! "anonymous" = Some (mkRateRecord 1 60000).
Proof. vm_compute. split_and!; reflexivity. Qed.

(* ===================================================================== *)
(** * Further facts: connection manager                                    *)
(* ===================================================================== *)

(** The seven ways a call can go: returned at once; token refused; close
    refused; closed and connect refused; closed and connected; connect
    refused; connected. *)
Ltac acquire_cases env s :=
  let Hf := fresh "Hf" in
  destruct (connection_is_fresh (now_guard env) s) eqn:Hf;
  [ rewrite (ensureSqlConnection_fresh env s Hf)
  | rewrite (ensureSqlConnection_refresh env s Hf);
    destruct (getToken_result env) as [?e|?a] eqn:?Htok;
    [ | cbn zeta; destruct (connected_pool s) as [?h|] eqn:?Hcp;
        [ destruct (close_result env) as [?e|[]] eqn:?Hclose;
          [ | destruct (connect_result env) as [?e|[]] eqn:?Hconn ]
        | destruct (connect_result env) as [?e|[]] eqn:?Hconn ] ] ].

(** X1.  [ensureSqlConnection] makes no outbound call exactly when a pool is
    held and connected, a non-empty token is stored and the stored expiry
    is strictly more than 120000 ms ahead; in every other state (also with
    the expiry exactly 120000 ms ahead) its first act is to request a
    token. *)
Theorem ensureSqlConnection_quiet_iff_fresh (env : Env) (s : State) :
  (snd (ensureSqlConnection env s) = [] <->
   exists h tok e,
     globalSqlPool (shared s) = Some h /\ connected s h = true /\
     globalAccessToken (shared s) = Some tok /\ tok <> "" /\
     globalTokenExpiresOn (shared s) = Some e /\ (now_guard env + 120000 < e)%Z)
  /\ (snd (ensureSqlConnection env s) <> [] ->
      exists rest, snd (ensureSqlConnection env s) = EvGetToken :: rest).
Proof.
  rewrite <- connection_is_fresh_spec.
  acquire_cases env s; simpl; (split; [split; done | by eauto]).
Qed.

Lemma ensureSqlConnection_returns_connected
    (env : Env) (s s' : State) (tr : list event) :
  ensureSqlConnection env s = (inr tt, s', tr) ->
  exists h, globalSqlPool (shared s') = Some h /\ connected s' h = true.
Proof.
  acquire_cases env s; intros [= <- <-]; try done.
  - apply connection_is_fresh_spec in Hf as (h & _ & _ & Hp & Hc & _). eauto.
  - eexists. split; [reflexivity|]. unfold connected. simpl.
    apply bool_decide_eq_true. set_solver.
  - eexists. split; [reflexivity|]. unfold connected. simpl.
    apply bool_decide_eq_true. set_solver.
Qed.

(** X2.  When [ensureSqlConnection] returns normally, a pool is held and
    reports connected, and the variables hold what the guard asks for or
    what the provider just gave: the queries that follow find a
    connection. *)
Theorem ensureSqlConnection_success_holds_pool
    (env : Env) (s s' : State) (tr : list event) :
  ensureSqlConnection env s = (inr tt, s', tr) ->
  (exists h, globalSqlPool (shared s') = Some h /\ connected s' h = true)
  /\ (tr = [] /\ s' = s
      \/ exists a, getToken_result env = inr a
                   /\ globalAccessToken (shared s') = token <$> a
                   /\ globalTokenExpiresOn (shared s')
                      = Some (expiresOn_of a (now_config env))).
Proof.
  intros Hok. split; [by eapply ensureSqlConnection_returns_connected|].
  revert Hok. acquire_cases env s; intros [= <- <-]; try done; eauto.
Qed.

Lemma ensureSqlConnection_success_holds_pool_witness :
  let s' := mkState (mkShared (Some 0) (Some "T") (Some 1000000%Z))
                    (mkDriver ({[0]} ∪ ∅) 1) in
  (exists h, globalSqlPool (shared s') = Some h /\ connected s' h = true)
  /\ ([EvGetToken; EvConnect (mkSqlConfig (Some "T"))] = [] /\ s' = initial_state
      \/ exists a, getToken_result (env_at 0 "T" 1000000) = inr a
                   /\ globalAccessToken (shared s') = token <$> a
                   /\ globalTokenExpiresOn (shared s')
                      = Some (expiresOn_of a (now_config (env_at 0 "T" 1000000)))).
Proof.
  intros s'.
  apply (ensureSqlConnection_success_holds_pool (env_at 0 "T" 1000000) initial_state s'
           [EvGetToken; EvConnect (mkSqlConfig (Some "T"))]).
  vm_compute. reflexivity.
Defined.

(** X3.  A call that fails has opened nothing and kept the held pool
    variable: the driver has handed out no new pool, no pool has become
    connected, and [globalSqlPool] is what it was.  When it is the token
    request that failed, the whole state is what it was. *)
Theorem ensureSqlConnection_failure_opens_nothing
    (env : Env) (s s' : State) (e : exn) (tr : list event) :
  ensureSqlConnection env s = (inl e, s', tr) ->
  globalSqlPool (shared s') = globalSqlPool (shared s)
  /\ next_handle (driver s') = next_handle (driver s)
  /\ live (driver s') ⊆ live (driver s)
  /\ (getToken_result env = inl e -> s' = s /\ tr = [EvGetToken]).
Proof.
  acquire_cases env s; intros [= <- <- <-]; try done; simpl;
  by (split_and!; [done|done|set_solver|]).
Qed.

Lemma ensureSqlConnection_failure_opens_nothing_witness :
  let s := mkState (mkShared (Some 0) (Some "old") (Some 1000%Z)) (mkDriver {[0]} 1) in
  let s' := mkState (mkShared (Some 0) (Some "new") (Some 3600000%Z))
                    (mkDriver ({[0]} ∖ {[0]}) 1) in
  let env := mkEnv 1000 1000 1000 (inr (Some (mkAccessToken "new" (Some 3600000%Z))))
                   (inr tt) (inl (JsError "unreachable")) (fun _ => inr []) in
  globalSqlPool (shared s') = globalSqlPool (shared s)
  /\ next_handle (driver s') = next_handle (driver s)
  /\ live (driver s') ⊆ live (driver s)
  /\ (getToken_result env = inl (JsError "unreachable") ->
      s' = s /\ [EvGetToken; EvClose 0; EvConnect (mkSqlConfig (Some "new"))] = [EvGetToken]).
Proof.
  intros s s' env.
  apply (ensureSqlConnection_failure_opens_nothing env s s' (JsError "unreachable")
           [EvGetToken; EvClose 0; EvConnect (mkSqlConfig (Some "new"))]).
  vm_compute. reflexivity.
Defined.

(** X4.  One call makes at most one token request, one close and one
    connect, in that order, and never a query; the only pool it ever
    closes is the one held at the start, and only if that pool reported
    connected. *)
Theorem ensureSqlConnection_outbound_calls (env : Env) (s : State) :
  exists c,
    (snd (ensureSqlConnection env s) = []
     \/ snd (ensureSqlConnection env s) = [EvGetToken]
     \/ snd (ensureSqlConnection env s) = [EvGetToken; EvConnect c]
     \/ exists h,
          globalSqlPool (shared s) = Some h /\ connected s h = true
          /\ (snd (ensureSqlConnection env s) = [EvGetToken; EvClose h]
              \/ snd (ensureSqlConnection env s) = [EvGetToken; EvClose h; EvConnect c])).
Proof.
  acquire_cases env s; simpl;
    try (apply connected_pool_Some in Hcp as [Hp Hl];
         assert (connected s h = true) by (by apply bool_decide_eq_true));
    eexists; eauto 10.
  Unshelve. all: exact (mkSqlConfig None).
Qed.

(** X5.  Shutdown after calls that ran one after the other: once the
    SIGTERM handler's close has resolved, no pool reports connected; and
    with no pool held the handler makes no outbound call. *)
Theorem onSigterm_leaves_no_connection
    (n : nat) (sched : list action) (env : Env) :
  serialized sched (sys_init n) = true ->
  close_result env = inr tt ->
  let s := sys_state (sys_run sched (sys_init n)) in
  live (driver (snd (fst (onSigterm env s)))) = ∅
  /\ (globalSqlPool (shared s) = None -> snd (onSigterm env s) = []).
Proof.
  intros Hser Hclose s.
  assert (Hinv : serial_inv (sys_run sched (sys_init n)))
    by (apply serial_inv_run; [apply serial_inv_init|done]).
  pose proof (inv_live_held _ Hinv) as Hheld. fold s in Hheld.
  unfold onSigterm, bind, get_state, await_close, ret. simpl.
  destruct (globalSqlPool (shared s)) as [h|] eqn:Hp; simpl.
  - rewrite Hclose. simpl. split; [|done].
    apply set_eq. intros h'. split; [|set_solver]. intros Hh'.
    apply elem_of_difference in Hh' as [Hin Hne].
    apply Hheld in Hin. injection Hin as ->. set_solver.
  - split; [|done]. apply set_eq. intros h'. split; [|set_solver].
    intros Hin. by apply Hheld in Hin.
Qed.

Lemma onSigterm_leaves_no_connection_witness :
  let s := sys_state (sys_run (take 7 one_after_the_other) (sys_init 2)) in
  live (driver (snd (fst (onSigterm (env_at 950000 "T" 0) s)))) = ∅
  /\ (globalSqlPool (shared s) = None -> snd (onSigterm (env_at 950000 "T" 0) s) = []).
Proof.
  apply (onSigterm_leaves_no_connection 2 (take 7 one_after_the_other)
           (env_at 950000 "T" 0)); vm_compute; reflexivity.
Defined.



(* ===================================================================== *)
(** * Further facts: executors, tool list, REST routes                     *)
(* ===================================================================== *)

Section MoreExecutorFacts.
Context `{JsRuntime}.

(** X7.  [describe_table] rejects, before any outbound call, every argument
    whose [tableName] is missing, not a string or empty.  Otherwise it
    sends one fixed statement with the name bound as the input
    [tableName] (the name never enters the statement text), and returns
    the rows as [columns] with their count: a table that does not exist
    gives an empty list, not an error. *)
Theorem executeDescribeTable_validates_and_binds
    (args : jsval) (env : Env) (s : State) :
  ((forall t, destructure args "tableName" = inr (JStr t) -> t = "") ->
   exists e, executeDescribeTable args env s = (inl e, s, [])
             /\ (destructure args "tableName" = inl e
                 \/ e = JsError "tableName is required and must be a string"))
  /\ (forall t, destructure args "tableName" = inr (JStr t) -> t <> "" ->
      exists r,
        executeDescribeTable args env s
        = (r, s, [EvQuery (mkSqlRequest describe_statement [("tableName", JStr t)])])
        /\ (forall rows,
              query_result env (mkSqlRequest describe_statement [("tableName", JStr t)])
              = inr rows ->
              exists fields,
                r = inr (JObj fields)
                /\ assoc "success" fields = Some (JBool true)
                /\ assoc "tableName" fields = Some (JStr t)
                /\ assoc "columns" fields = Some (JArr rows)
                /\ assoc "columnCount" fields = Some (JNum (Z.of_nat (length rows))))).
Proof.
  unfold executeDescribeTable. unfold_M. split.
  - intros Hno. destruct (destructure args "tableName") as [e|tableName] eqn:Ht.
    { exists e. auto. }
    destruct (negb (truthy tableName) || negb (is_string tableName)) eqn:Hcheck.
    { eexists. split; [reflexivity|auto]. }
    destruct (read_data_check tableName Hcheck) as (t & -> & Hne).
    by specialize (Hno t eq_refl).
  - intros t -> Hne. simpl. destruct (String.eqb_spec t ""); [done|]. simpl.
    fold describe_statement.
    destruct (query_result env _) as [e|rows].
    + eexists. split; [reflexivity|]. done.
    + eexists. split; [reflexivity|].
      intros ? [= <-]. eexists. split; [reflexivity|]. done.
Qed.

(** The statement [list_table] builds for a filter. *)
Lemma list_table_filter (ps : list jsval) :
  ps <> [] ->
  truthy (JArr ps) && gt_zero (length_of (JArr ps)) = true.
Proof.
  intros Hne. simpl. rewrite gt_zero_num. apply Z.ltb_lt.
  destruct ps; [done|]. simpl. lia.
Qed.

(** X8.  [list_table] never rejects a missing argument object or a missing
    or empty [parameters]: it then sends the catalog statement without a
    filter.  With a non-empty array it sends the statement with
    [AND TABLE_SCHEMA IN (...)], each element written between single
    quotes exactly as it is (nothing is escaped or bound as an input). *)
Theorem executeListTable_statement (args : jsval) (env : Env) (s : State) :
  let given := if truthy args then args else JObj [] in
  (forall p, destructure given "parameters" = inr p ->
             truthy p = false \/ p = JArr [] ->
   snd (executeListTable args env s)
   = [EvQuery (mkSqlRequest
        ("SELECT TABLE_SCHEMA + '.' + TABLE_NAME as [table] FROM INFORMATION_SCHEMA.TABLES WHERE TABLE_TYPE = 'BASE TABLE' "
         +:+ "" +:+ " ORDER BY TABLE_SCHEMA, TABLE_NAME") [])])
  /\ (forall ps, destructure given "parameters" = inr (JArr ps) -> ps <> [] ->
      snd (executeListTable args env s)
      = [EvQuery (mkSqlRequest
           ("SELECT TABLE_SCHEMA + '.' + TABLE_NAME as [table] FROM INFORMATION_SCHEMA.TABLES WHERE TABLE_TYPE = 'BASE TABLE' "
            +:+ ("AND TABLE_SCHEMA IN ("
                 +:+ String.concat ", " (map (fun p => "'" +:+ ToString p +:+ "'") ps)
                 +:+ ")")
            +:+ " ORDER BY TABLE_SCHEMA, TABLE_NAME") [])]).
Proof.
  intros given. unfold executeListTable. fold given. unfold_M. split.
  - intros p -> Hp.
    assert (Hno : truthy p && gt_zero (length_of p) = false).
    { destruct Hp as [->| ->]; [done|]. simpl. by rewrite gt_zero_num. }
    rewrite Hno. simpl. destruct (query_result env _); reflexivity.
  - intros ps -> Hne. rewrite list_table_filter by done. simpl.
    destruct (query_result env _); reflexivity.
Qed.

(** An executor sends at most one statement and leaves the connection
    state alone. *)
Lemma executors_send_one_statement
    (name : string) (execute : jsval -> M jsval) (args : jsval) (env : Env) (s : State) :
  executor_for name = Some execute ->
  snd (fst (execute args env s)) = s
  /\ (snd (execute args env s) = []
      \/ exists q, snd (execute args env s) = [EvQuery q]).
Proof.
  unfold executor_for.
  destruct (String.eqb name "read_data"); [intros [= <-]|].
  { unfold executeReadData. unfold_M.
    destruct (destructure args "query") as [e|v]; simpl; [auto|].
    destruct (negb (truthy v) || negb (is_string v)); simpl; [auto|].
    destruct (negb (startsWith _ _)); simpl; [auto|].
    destruct (query_result env _); simpl; eauto. }
  destruct (String.eqb name "list_table"); [intros [= <-]|].
  { unfold executeListTable. unfold_M.
    destruct (destructure _ "parameters") as [e|v]; simpl; [auto|].
    destruct (truthy v && gt_zero (length_of v)); simpl.
    - destruct v; simpl; auto.
      destruct (query_result env _); simpl; eauto.
    - destruct (query_result env _); simpl; eauto. }
  destruct (String.eqb name "describe_table"); [intros [= <-]|done].
  unfold executeDescribeTable. unfold_M.
  destruct (destructure args "tableName") as [e|v]; simpl; [auto|].
  destruct (negb (truthy v) || negb (is_string v)); simpl; [auto|].
  destruct (query_result env _); simpl; eauto.
Qed.

(** X9.  A tool call first acquires the connection, whatever the tool and
    the arguments: its outbound calls are those of [ensureSqlConnection],
    followed by at most one statement.  When the acquisition fails nothing
    is sent, and after the acquisition the connection state is not touched
    again. *)
Theorem callTool_acquires_then_queries_once
    (name : string) (args : jsval) (env : Env) (s : State) :
  snd (fst (callTool name args env s)) = snd (fst (ensureSqlConnection env s))
  /\ exists sent,
       snd (callTool name args env s) = snd (ensureSqlConnection env s) ++ sent
       /\ (sent = [] \/ exists q, sent = [EvQuery q])
       /\ (forall e, fst (fst (ensureSqlConnection env s)) = inl e -> sent = []).
Proof.
  rewrite callTool_unfold.
  destruct (ensureSqlConnection env s) as [[[e|[]] s1] tr1]; simpl.
  { split; [done|]. exists []. rewrite app_nil_r. auto. }
  destruct (executor_for name) as [execute|] eqn:Hex.
  - destruct (executors_send_one_statement name execute args env s1 Hex) as [Hs Hq].
    destruct (execute args env s1) as [[[e|result] s2] tr2]; simpl in *.
    + split; [done|]. exists tr2. split_and!; [done|done|by intros ? [=]].
    + destruct (JSON_stringify result); simpl;
        (split; [done|]; exists tr2; split_and!; [done|done|by intros ? [=]]).
  - split; [done|]. exists []. rewrite app_nil_r. split_and!; [done|auto|done].
Qed.

(** X10.  The tools [ListTools] advertises are exactly the names the
    handler dispatches on: every advertised tool has an executor, and no
    other name has one. *)
Theorem tools_match_dispatch (name : string) :
  In name (map tool_name tools) <-> exists execute, executor_for name = Some execute.
Proof.
  unfold executor_for. simpl. split.
  - intros [<-|[<-|[<-|[]]]]; simpl; eauto.
  - destruct (String.eqb_spec name "read_data"); [auto|].
    destruct (String.eqb_spec name "list_table"); [auto|].
    destruct (String.eqb_spec name "describe_table"); [auto|].
    by intros [? [=]].
Qed.


End MoreExecutorFacts.

Lemma executeDescribeTable_validates_and_binds_witness :
  exists r,
    executeDescribeTable (JObj [("tableName", JStr "x'; DROP TABLE t --")])
                         (env_at 0 "T" 1000000) initial_state
    = (r, initial_state,
       [EvQuery (mkSqlRequest describe_statement
                              [("tableName", JStr "x'; DROP TABLE t --")])])
    /\ (forall rows,
          query_result (env_at 0 "T" 1000000)
                       (mkSqlRequest describe_statement
                                     [("tableName", JStr "x'; DROP TABLE t --")])
          = inr rows ->
          exists fields,
            r = inr (JObj fields)
            /\ assoc "success" fields = Some (JBool true)
            /\ assoc "tableName" fields = Some (JStr "x'; DROP TABLE t --")
            /\ assoc "columns" fields = Some (JArr rows)
            /\ assoc "columnCount" fields = Some (JNum (Z.of_nat (length rows)))).
Proof.
  apply (proj2 (executeDescribeTable_validates_and_binds
                  (JObj [("tableName", JStr "x'; DROP TABLE t --")])
                  (env_at 0 "T" 1000000) initial_state) "x'; DROP TABLE t --").
  - reflexivity.
  - discriminate.
Defined.

Lemma executeListTable_statement_witness :
  snd (executeListTable JUndefined answers_nothing initial_state)
  = [EvQuery (mkSqlRequest
       ("SELECT TABLE_SCHEMA + '.' + TABLE_NAME as [table] FROM INFORMATION_SCHEMA.TABLES WHERE TABLE_TYPE = 'BASE TABLE' "
        +:+ "" +:+ " ORDER BY TABLE_SCHEMA, TABLE_NAME") [])].
Proof.
  apply (proj1 (executeListTable_statement JUndefined answers_nothing initial_state)
           JUndefined).
  - reflexivity.
  - left. reflexivity.
Defined.


Section RestFacts.
Context `{JsRuntime}.

Ltac run_route :=
  unfold post_api_read_data, post_api_list_table, post_api_describe_table,
    executeReadData, executeListTable, executeDescribeTable,
    try_catch, bind, lift, ret, throw, await_query, ask.

Ltac same_calls :=
  rewrite ?app_nil_r; split_and!;
  [ done | done
  | first [ by intros ? ? [= <-] _ [=] | by intros ? ? _ [= <-] _ ] ].

Lemma destructure_or_empty (b : jsval) (k : string) :
  b <> JUndefined -> b <> JNull ->
  destructure (if truthy b then b else JObj []) k = destructure b k.
Proof.
  intros Hu Hn. destruct b as [| |[]|n|v| |]; simpl; try done.
  - by destruct (n =? 0)%Z.
  - by destruct (String.eqb v "").
Qed.

(** X12.  The REST routes and the tool calls reach the database alike: for
    the same arguments [POST /api/read_data] and [POST /api/describe_table]
    make the same outbound calls as the tools [read_data] and
    [describe_table] and leave the same state, and so does
    [POST /api/list_table] for every body but [undefined] and [null];
    whenever the tool call is not an error the route answers 200. *)
Theorem rest_routes_send_what_tools_send (b : jsval) (env : Env) (s : State) :
  (snd (post_api_read_data b env s) = snd (callTool "read_data" b env s)
   /\ snd (fst (post_api_read_data b env s)) = snd (fst (callTool "read_data" b env s))
   /\ forall r h, fst (fst (callTool "read_data" b env s)) = inr r ->
                  fst (fst (post_api_read_data b env s)) = inr h ->
                  isError r = false -> status h = 200%Z)
  /\ (snd (post_api_describe_table b env s) = snd (callTool "describe_table" b env s)
      /\ snd (fst (post_api_describe_table b env s))
         = snd (fst (callTool "describe_table" b env s))
      /\ forall r h, fst (fst (callTool "describe_table" b env s)) = inr r ->
                     fst (fst (post_api_describe_table b env s)) = inr h ->
                     isError r = false -> status h = 200%Z)
  /\ (b <> JUndefined -> b <> JNull ->
      snd (post_api_list_table b env s) = snd (callTool "list_table" b env s)
      /\ snd (fst (post_api_list_table b env s))
         = snd (fst (callTool "list_table" b env s))
      /\ forall r h, fst (fst (callTool "list_table" b env s)) = inr r ->
                     fst (fst (post_api_list_table b env s)) = inr h ->
                     isError r = false -> status h = 200%Z).
Proof.
  rewrite !callTool_unfold.
  change (executor_for "read_data") with (Some executeReadData).
  change (executor_for "describe_table") with (Some executeDescribeTable).
  change (executor_for "list_table") with (Some executeListTable).
  split; [|split].
  - run_route.
    destruct (ensureSqlConnection env s) as [[[e|[]] s1] tr1]; simpl; [same_calls|].
    destruct (destructure b "query") as [e|q]; simpl; [same_calls|].
    destruct (negb (truthy q) || negb (is_string q)); simpl; [same_calls|].
    destruct (negb (startsWith _ _)); simpl; [same_calls|].
    destruct (query_result env _) as [e|rows]; simpl; [same_calls|].
    destruct (JSON_stringify _); simpl; same_calls.
  - run_route.
    destruct (ensureSqlConnection env s) as [[[e|[]] s1] tr1]; simpl; [same_calls|].
    destruct (destructure b "tableName") as [e|q]; simpl; [same_calls|].
    destruct (negb (truthy q) || negb (is_string q)); simpl; [same_calls|].
    destruct (query_result env _) as [e|rows]; simpl; [same_calls|].
    destruct (JSON_stringify _); simpl; same_calls.
  - intros Hu Hn. run_route. rewrite (destructure_or_empty b) by done.
    destruct (ensureSqlConnection env s) as [[[e|[]] s1] tr1]; simpl; [same_calls|].
    destruct (destructure b "parameters") as [e|q]; simpl; [same_calls|].
    destruct (truthy q && gt_zero (length_of q)); simpl.
    + destruct q; simpl; try same_calls.
      destruct (query_result env _) as [e|rows]; simpl; [same_calls|].
      destruct (JSON_stringify _); simpl; same_calls.
    + destruct (query_result env _) as [e|rows]; simpl; [same_calls|].
      destruct (JSON_stringify _); simpl; same_calls.
Qed.

End RestFacts.

Lemma rest_routes_send_what_tools_send_witness :
  snd (post_api_list_table (JObj [("parameters", JArr [JStr "Sales"])])
                           (env_at 0 "T" 1000000) initial_state)
  = snd (callTool "list_table" (JObj [("parameters", JArr [JStr "Sales"])])
                  (env_at 0 "T" 1000000) initial_state).
Proof.
  apply (proj2 (proj2 (rest_routes_send_what_tools_send
                         (JObj [("parameters", JArr [JStr "Sales"])])
                         (env_at 0 "T" 1000000) initial_state))
           ltac:(discriminate) ltac:(discriminate)).
Defined.

(* ===================================================================== *)
(** * Further facts: access guard                                          *)
(* ===================================================================== *)

Lemma remove_first_unfold (pat s : string) :
  remove_first pat s
  = if String.prefix pat s then drop_chars (String.length pat) s
    else match s with
         | EmptyString => EmptyString
         | String c rest => String c (remove_first pat rest)
         end.
Proof. destruct s; reflexivity. Qed.

Lemma prefix_append (p s : string) : String.prefix p (p +:+ s) = true.
Proof.
  induction p as [|c p IH]; simpl; [by destruct s|].
  destruct (ascii_dec c c); [done|done].
Qed.

Lemma drop_chars_append (p s : string) : drop_chars (String.length p) (p +:+ s) = s.
Proof. induction p as [|c p IH]; simpl; [by destruct s|done]. Qed.

Lemma remove_first_prefix (p s : string) : remove_first p (p +:+ s) = s.
Proof. by rewrite remove_first_unfold, prefix_append, drop_chars_append. Qed.

Lemma str_truthy_Some (k : string) : k <> "" -> str_truthy (Some k) = true.
Proof. intros Hk. simpl. by destruct (String.eqb_spec k ""). Qed.

Lemma js_or_left (a b : option string) : str_truthy a = true -> js_or a b = a.
Proof. unfold js_or. by intros ->. Qed.

Lemma js_or_right (a b : option string) : str_truthy a = false -> js_or a b = b.
Proof. unfold js_or. by intros ->. Qed.

Lemma js_or_first (a b : option string) (k : string) :
  js_or a b = Some k -> a = Some k \/ b = Some k.
Proof. unfold js_or. destruct (str_truthy a); auto. Qed.

(** X13.  With a key configured, a request to any path but [/health] passes
    the credential check only if one of the three channels carries exactly
    the key; and it does pass when [x-api-key] is the key, when
    [x-api-key] is missing or empty and [Authorization] is [Bearer ]
    followed by the key, or when neither header gives a credential and the
    [apiKey] parameter is the key. *)
Theorem apiKeyAuth_accepts_only_the_key (key : string) (req : Request) :
  key <> "" -> path req <> "/health" ->
  (apiKeyAuth (Some key) req = Next ->
   x_api_key req = Some key \/ bearer req = Some key \/ query_apiKey req = Some key)
  /\ (x_api_key req = Some key -> apiKeyAuth (Some key) req = Next)
  /\ (str_truthy (x_api_key req) = false ->
      authorization req = Some ("Bearer " +:+ key) ->
      apiKeyAuth (Some key) req = Next)
  /\ (str_truthy (x_api_key req) = false -> str_truthy (bearer req) = false ->
      query_apiKey req = Some key -> apiKeyAuth (Some key) req = Next).
Proof.
  intros Hkey Hpath. unfold apiKeyAuth.
  destruct (String.eqb_spec (path req) "/health"); [done|].
  rewrite (str_truthy_Some key Hkey). cbn [negb].
  assert (Hpass : requestKey req = Some key ->
            (if negb (str_truthy (requestKey req))
             then Reply (mkHttpResponse 401
                    (JObj [("error", JStr "Unauthorized");
                           ("message", JStr "API key required. Provide via x-api-key header, Authorization header, or apiKey query parameter.")]))
             else if negb (bool_decide (requestKey req = Some key))
                  then Reply (mkHttpResponse 403
                         (JObj [("error", JStr "Forbidden");
                                ("message", JStr "Invalid API key")]))
                  else Next) = Next).
  { intros ->. rewrite (str_truthy_Some key Hkey). cbn [negb].
    by rewrite bool_decide_eq_true_2. }
  split_and!.
  - destruct (str_truthy (requestKey req)); [|done]. cbn [negb].
    case_bool_decide as Heq; [|done]. intros _.
    unfold requestKey in Heq.
    apply js_or_first in Heq as [Heq|Heq]; [|auto].
    apply js_or_first in Heq as [Heq|Heq]; auto.
  - intros Hx. apply Hpass. unfold requestKey. rewrite Hx.
    by rewrite !js_or_left by (by rewrite ?js_or_left; apply str_truthy_Some).
  - intros Hx Ha. apply Hpass.
    assert (Hb : bearer req = Some key).
    { unfold bearer. rewrite Ha.
      change (Some (remove_first "Bearer " ("Bearer " +:+ key)) = Some key).
      by rewrite remove_first_prefix. }
    unfold requestKey. rewrite (js_or_right (x_api_key req)) by done.
    rewrite Hb. by rewrite js_or_left by (by apply str_truthy_Some).
  - intros Hx Hb Hq. apply Hpass. unfold requestKey.
    by rewrite (js_or_right (x_api_key req)), js_or_right.
Qed.

Lemma apiKeyAuth_accepts_only_the_key_witness :
  apiKeyAuth (Some "secret")
             (mkRequest "/sse" (Some "") (Some "Bearer secret") None None None JUndefined)
  = Next.
Proof.
  apply (proj1 (proj2 (proj2 (apiKeyAuth_accepts_only_the_key "secret"
           (mkRequest "/sse" (Some "") (Some "Bearer secret") None None None JUndefined)
           ltac:(discriminate) ltac:(discriminate)))));
    reflexivity.
Defined.

(** X14.  The channels are read in order and the first credential found
    decides: a non-empty [x-api-key] that is not the key is answered 403
    even when [Authorization] or [apiKey] carries the key; and a request
    with no credential in any channel is answered 401. *)
Theorem apiKeyAuth_first_credential_decides (key : string) (req : Request) :
  key <> "" -> path req <> "/health" ->
  (forall k, x_api_key req = Some k -> k <> "" -> k <> key ->
     exists r, apiKeyAuth (Some key) req = Reply r /\ status r = 403%Z)
  /\ (str_truthy (x_api_key req) = false -> str_truthy (bearer req) = false ->
      str_truthy (query_apiKey req) = false ->
      exists r, apiKeyAuth (Some key) req = Reply r /\ status r = 401%Z).
Proof.
  intros Hkey Hpath. unfold apiKeyAuth.
  destruct (String.eqb_spec (path req) "/health"); [done|].
  rewrite (str_truthy_Some key Hkey). cbn [negb]. split.
  - intros k Hx Hk Hne.
    assert (Hreq : requestKey req = Some k).
    { unfold requestKey. rewrite Hx.
      by rewrite !js_or_left by (by rewrite ?js_or_left; apply str_truthy_Some). }
    rewrite Hreq, (str_truthy_Some k Hk). cbn [negb].
    rewrite bool_decide_eq_false_2 by (by intros [= ->]). cbn [negb]. eauto.
  - intros Hx Hb Hq. unfold requestKey.
    rewrite (js_or_right (x_api_key req)), js_or_right, Hq by done.
    cbn [negb]. eauto.
Qed.

Lemma apiKeyAuth_first_credential_decides_witness :
  exists r,
    apiKeyAuth (Some "secret")
               (mkRequest "/sse" (Some "guess") (Some "Bearer secret") None
                          (Some "secret") None JUndefined)
    = Reply r /\ status r = 403%Z.
Proof.
  apply (proj1 (apiKeyAuth_first_credential_decides "secret"
           (mkRequest "/sse" (Some "guess") (Some "Bearer secret") None
                      (Some "secret") None JUndefined)
           ltac:(discriminate) ltac:(discriminate)) "guess");
    [reflexivity|discriminate|discriminate].
Defined.





(** X16.  A request the guard refuses (401, 403 or 429) leaves the
    rate-limit table as it was: only requests that pass are counted. *)
Theorem access_guard_refusal_counts_nothing
    (cfg : GuardConfig) (req : Request) (now : Z)
    (requestCounts : gmap string RateRecord) (r : HttpResponse) :
  fst (access_guard cfg req now requestCounts) = Reply r ->
  snd (access_guard cfg req now requestCounts) = requestCounts
  /\ (status r = 401 \/ status r = 403 \/ status r = 429)%Z.
Proof.
  unfold access_guard. destruct (str_truthy (API_KEY cfg)); [|done].
  destruct (apiKeyAuth (API_KEY cfg) req) as [|r'] eqn:Hauth.
  - destruct (ENABLE_RATE_LIMITING cfg); [|done]. unfold rateLimiter.
    destruct (requestCounts !! rateLimiter_key req) as [record|]; [|done].
    destruct (resetTime record <? now)%Z; [done|].
    destruct (RATE_LIMIT_MAX cfg <=? count record)%Z; [|done].
    simpl. intros [= <-]. simpl. auto.
  - simpl. intros [= <-]. split; [done|].
    unfold apiKeyAuth in Hauth.
    destruct (String.eqb (path req) "/health"); [done|].
    destruct (negb (str_truthy (API_KEY cfg))); [done|].
    destruct (negb (str_truthy (requestKey req))); [injection Hauth as <-; auto|].
    destruct (negb (bool_decide (requestKey req = API_KEY cfg)));
      [injection Hauth as <-; auto|done].
Qed.

Lemma access_guard_refusal_counts_nothing_witness :
  let req := mkRequest "/sse" (Some "guess") None None None None JUndefined in
  let counts : gmap string RateRecord := {["secret" := mkRateRecord 3 60000]} in
  snd (access_guard guarded req 10 counts) = counts
  /\ (403 = 401 \/ 403 = 403 \/ 403 = 429)%Z.
Proof.
  intros req counts.
  apply (access_guard_refusal_counts_nothing guarded req 10 counts
           (mkHttpResponse 403 (JObj [("error", JStr "Forbidden");
                                      ("message", JStr "Invalid API key")]))).
  vm_compute. reflexivity.
Defined.

(** X17.  Without [API_KEY] the guard is off altogether: every request of
    every run passes and nothing is counted, also when rate limiting is
    switched on. *)
Theorem access_guard_off_without_key
    (cfg : GuardConfig) (reqs : list (Request * Z))
    (requestCounts : gmap string RateRecord) :
  str_truthy (API_KEY cfg) = false ->
  guard_run cfg reqs requestCounts = (map (fun _ => Next) reqs, requestCounts).
Proof.
  intros Hoff. induction reqs as [|[req now] rest IH]; simpl; [done|].
  unfold access_guard. rewrite Hoff. by rewrite IH.
Qed.

Lemma access_guard_off_without_key_witness :
  guard_run (mkGuardConfig None true 1 60000)
            [(health_probe, 0%Z); (health_probe, 1%Z); (health_probe, 2%Z)] ∅
  = ([Next; Next; Next], ∅).
Proof.
  apply (access_guard_off_without_key (mkGuardConfig None true 1 60000)
           [(health_probe, 0%Z); (health_probe, 1%Z); (health_probe, 2%Z)] ∅).
  reflexivity.
Defined.

Lemma ceil_div_1000_bounds (x : Z) :
  (1000 * (ceil_div_1000 x - 1) < x <= 1000 * ceil_div_1000 x)%Z.
Proof. unfold ceil_div_1000. Z.div_mod_to_equations. lia. Qed.

(** X18.  A 429 answer carries a [retryAfter] that is never negative and
    is the remaining time of the window rounded up to whole seconds; a
    request under the same key arriving later than that many seconds
    after the refusal passes. *)
Theorem rateLimiter_retry_after
    (maxRequests windowMs : Z) (req : Request) (now : Z)
    (requestCounts : gmap string RateRecord) (r : HttpResponse) :
  fst (rateLimiter maxRequests windowMs req now requestCounts) = Reply r ->
  exists record fields n,
    requestCounts !! rateLimiter_key req = Some record
    /\ status r = 429%Z /\ json r = JObj fields
    /\ assoc "retryAfter" fields = Some (JNum n)
    /\ (0 <= n)%Z
    /\ (1000 * (n - 1) < resetTime record - now <= 1000 * n)%Z
    /\ forall req' now',
         rateLimiter_key req' = rateLimiter_key req ->
         (now + 1000 * n < now')%Z ->
         fst (rateLimiter maxRequests windowMs req' now' requestCounts) = Next.
Proof.
  unfold rateLimiter at 1.
  destruct (requestCounts !! rateLimiter_key req) as [record|] eqn:Hrec; [|done].
  destruct (resetTime record <? now)%Z eqn:Hexp; [done|].
  destruct (maxRequests <=? count record)%Z; [|done].
  simpl. intros [= <-]. apply Z.ltb_ge in Hexp.
  pose proof (ceil_div_1000_bounds (resetTime record - now)) as Hceil.
  exists record. eexists. exists (ceil_div_1000 (resetTime record - now)).
  split_and!; try done; try lia.
  intros req' now' Hkey Hlater. unfold rateLimiter. rewrite Hkey, Hrec.
  destruct (resetTime record <? now')%Z eqn:Hexp'; [done|].
  apply Z.ltb_ge in Hexp'. lia.
Qed.

Lemma rateLimiter_retry_after_witness :
  exists record fields n,
    ({["anonymous" := mkRateRecord 100 60000]} : gmap string RateRecord)
      !! rateLimiter_key health_probe = Some record
    /\ (429 = 429)%Z
    /\ JObj [("error", JStr "Too Many Requests");
             ("message", JStr "Rate limit exceeded. Try again in 59 seconds.");
             ("retryAfter", JNum 59)] = JObj fields
    /\ assoc "retryAfter" fields = Some (JNum n)
    /\ (0 <= n)%Z
    /\ (1000 * (n - 1) < resetTime record - 1500 <= 1000 * n)%Z
    /\ forall req' now',
         rateLimiter_key req' = rateLimiter_key health_probe ->
         (1500 + 1000 * n < now')%Z ->
         fst (rateLimiter 100 60000 req' now' {["anonymous" := mkRateRecord 100 60000]})
         = Next.
Proof.
  apply (rateLimiter_retry_after 100 60000 health_probe 1500
           {["anonymous" := mkRateRecord 100 60000]}
           (mkHttpResponse 429
              (JObj [("error", JStr "Too Many Requests");
                     ("message", JStr "Rate limit exceeded. Try again in 59 seconds.");
                     ("retryAfter", JNum 59)]))).
  vm_compute. reflexivity.
Defined.

(* ===================================================================== *)
(** * Further facts: session registry                                      *)
(* ===================================================================== *)

(** Where a registered transport comes from. *)
Lemma registry_lookup_origin (ops : list registry_op) :
  forall (m : gmap string Transport) (id : string) (t : Transport),
    fold_left registry_step ops m !! id = Some t ->
    m !! id = Some t \/ (In (Open t) ops /\ sessionId t = id).
Proof.
  induction ops as [|op ops IH]; intros m id t Hl; simpl in *; [auto|].
  apply IH in Hl as [Hl|[Hin Hid]]; [|by auto].
  destruct op as [t'|t']; simpl in Hl.
  - unfold get_sse in Hl. destruct (decide (sessionId t' = id)) as [<-|Hne].
    + rewrite lookup_insert_eq in Hl. injection Hl as ->. auto.
    + rewrite lookup_insert_ne in Hl by done. auto.
  - unfold onclose in Hl. destruct (decide (sessionId t' = id)) as [<-|Hne].
    + by rewrite lookup_delete_eq in Hl.
    + rewrite lookup_delete_ne in Hl by done. auto.
Qed.

(** X19.  Whatever sessions have opened and closed since the process
    started, [POST /sse] hands a message only to a transport that
    [GET /sse] registered and whose own session identifier is the one the
    message names; the registry itself always holds each transport under
    its own identifier. *)
Theorem post_sse_delivers_to_the_named_session
    (ops : list registry_op) (req : Request) :
  keyed_by_id (fold_left registry_step ops ∅)
  /\ forall t message lookups,
       post_sse req (fold_left registry_step ops ∅)
       = (HandlePostMessage t message, lookups) ->
       In (Open t) ops
       /\ js_or (x_mcp_session_id req) (query_sessionId req) = Some (sessionId t)
       /\ message = body req.
Proof.
  split.
  - intros id t Hl. apply registry_lookup_origin in Hl as [Hl|[_ Hid]]; [|done].
    by rewrite lookup_empty in Hl.
  - intros t message lookups. unfold post_sse.
    destruct (js_or _ _) as [sid|]; simpl; [|done].
    destruct (String.eqb sid ""); simpl; [done|].
    destruct (fold_left registry_step ops ∅ !! sid) as [t'|] eqn:Hl; [|done].
    intros [= <- <- _].
    apply registry_lookup_origin in Hl as [Hl|[Hin Hid]].
    + by rewrite lookup_empty in Hl.
    + by rewrite Hid.
Qed.

Lemma registry_step_keeps_present (ops : list registry_op) :
  forall (m : gmap string Transport) (t : Transport),
    (forall t', In (Open t') ops \/ In (Close t') ops -> sessionId t' <> sessionId t) ->
    m !! sessionId t = Some t ->
    fold_left registry_step ops m !! sessionId t = Some t.
Proof.
  induction ops as [|op ops IH]; intros m t Hops Hm; [done|].
  simpl. apply IH.
  - intros t' [Ht'|Ht']; apply Hops; [left|right]; by right.
  - destruct op as [t'|t']; simpl.
    + unfold get_sse. rewrite lookup_insert_ne; [done|]. apply Hops. left. by left.
    + unfold onclose. rewrite lookup_delete_ne; [done|]. apply Hops. right. by left.
Qed.

(** X20.  A session opened by [GET /sse] keeps receiving its messages
    while other sessions open and close: as long as no other session
    uses its identifier, a message naming it is handed to its transport
    after one lookup. *)
Theorem open_session_receives_its_messages
    (t : Transport) (ops : list registry_op) (m : gmap string Transport)
    (req : Request) :
  sessionId t <> "" ->
  (forall t', In (Open t') ops \/ In (Close t') ops -> sessionId t' <> sessionId t) ->
  js_or (x_mcp_session_id req) (query_sessionId req) = Some (sessionId t) ->
  post_sse req (fold_left registry_step ops (get_sse t m))
  = (HandlePostMessage t (body req), [sessionId t]).
Proof.
  intros Hid Hops Hsid.
  rewrite (post_sse_with_identifier _ _ (sessionId t)) by done.
  rewrite registry_step_keeps_present; [done|done|].
  unfold get_sse. apply lookup_insert_eq.
Qed.

Lemma open_session_receives_its_messages_witness :
  post_sse (mkRequest "/sse" None None (Some "s1") None None (JNum 1))
           (fold_left registry_step
                      [Open (mkTransport "s2" 2); Close (mkTransport "s2" 2);
                       Open (mkTransport "s3" 3)]
                      (get_sse (mkTransport "s1" 1) ∅))
  = (HandlePostMessage (mkTransport "s1" 1) (JNum 1), ["s1"]).
Proof.
  apply (open_session_receives_its_messages (mkTransport "s1" 1)
           [Open (mkTransport "s2" 2); Close (mkTransport "s2" 2);
            Open (mkTransport "s3" 3)] ∅
           (mkRequest "/sse" None None (Some "s1") None None (JNum 1))).
  - discriminate.
  - intros t' [[[= <-]|[[=]|[[= <-]|[]]]]|[[=]|[[= <-]|[[=]|[]]]]]; discriminate.
  - reflexivity.
Defined.

(* ===================================================================== *)
(** * Further facts: the two transports on absent arguments                *)
(* ===================================================================== *)

Section AbsentArguments.
Context `{JsRuntime}.

(** X21.  With no argument object at all ([undefined] or [null]) the two
    transports part: the tool [list_table] sends the unfiltered catalog
    statement, while [POST /api/list_table] sends nothing and answers 500;
    the tools [read_data] and [describe_table] report an error without
    sending anything. *)
Theorem absent_arguments (b : jsval) (env : Env) (s s1 : State) (tr1 : list event) :
  b = JUndefined \/ b = JNull ->
  ensureSqlConnection env s = (inr tt, s1, tr1) ->
  snd (callTool "list_table" b env s)
  = tr1 ++ [EvQuery (mkSqlRequest
      ("SELECT TABLE_SCHEMA + '.' + TABLE_NAME as [table] FROM INFORMATION_SCHEMA.TABLES WHERE TABLE_TYPE = 'BASE TABLE' "
       +:+ "" +:+ " ORDER BY TABLE_SCHEMA, TABLE_NAME") [])]
  /\ (exists r, post_api_list_table b env s = (inr r, s1, tr1) /\ status r = 500%Z)
  /\ (exists r, callTool "read_data" b env s = (inr r, s1, tr1) /\ isError r = true)
  /\ (exists r, callTool "describe_table" b env s = (inr r, s1, tr1) /\ isError r = true).
Proof.
  intros Hb Hacq. rewrite !callTool_unfold, Hacq.
  change (executor_for "read_data") with (Some executeReadData).
  change (executor_for "describe_table") with (Some executeDescribeTable).
  change (executor_for "list_table") with (Some executeListTable).
  unfold post_api_list_table, executeReadData, executeListTable, executeDescribeTable,
    try_catch, bind, lift, ret, throw, await_query, ask.
  rewrite Hacq.
  destruct Hb as [-> | ->]; simpl; rewrite ?app_nil_r;
    (split_and!;
     [ destruct (query_result env _) as [e|rows]; simpl; [done|];
       by destruct (JSON_stringify _)
     | eauto | eauto | eauto ]).
Qed.

End AbsentArguments.

Lemma absent_arguments_witness :
  exists r,
    post_api_list_table JUndefined (env_at 0 "T" 1000000) initial_state
    = (inr r,
       mkState (mkShared (Some 0) (Some "T") (Some 1000000%Z)) (mkDriver ({[0]} ∪ ∅) 1),
       [EvGetToken; EvConnect (mkSqlConfig (Some "T"))])
    /\ status r = 500%Z.
Proof.
  refine (proj1 (proj2 (absent_arguments JUndefined (env_at 0 "T" 1000000) initial_state
            _ _ (or_introl eq_refl) _))).
  vm_compute. reflexivity.
Defined.

(* ===================================================================== *)
(** * Further facts: calls in flight at once                               *)
(* ===================================================================== *)

Lemma count_done_insert (tasks : list pc) :
  forall (i : nat) (p p' : pc),
    tasks !! i = Some p ->
    count_done (<[i := p']> tasks) + (if is_done p then 1 else 0)
    = count_done tasks + (if is_done p' then 1 else 0).
Proof.
  unfold count_done.
  induction tasks as [|q tasks IH]; intros [|i] p p' Hi; simpl in *; try done.
  - injection Hi as ->. rewrite !filter_cons.
    destruct (decide (is_done p' = true)) as [Hp'|Hp'],
             (decide (is_done p = true)) as [Hp|Hp]; simpl.
    + rewrite Hp', Hp. lia.
    + apply not_true_is_false in Hp. rewrite Hp', Hp. lia.
    + apply not_true_is_false in Hp'. rewrite Hp', Hp. lia.
    + apply not_true_is_false in Hp, Hp'. rewrite Hp', Hp. lia.
  - rewrite !filter_cons. specialize (IH i p p' Hi).
    destruct (decide (is_done q = true)); simpl; lia.
Qed.

Lemma count_done_le_length (tasks : list pc) : count_done tasks <= length tasks.
Proof. unfold count_done. apply length_filter. Qed.

(** What holds under every schedule: each pool handed out is paid for by a
    call that has returned, and connected pools are pools handed out. *)
Lemma pools_bounded_step (a : action) (sys : System) :
  next_handle (driver (sys_state sys)) <= count_done (sys_tasks sys) ->
  (forall h, h ∈ live (driver (sys_state sys)) ->
             h < next_handle (driver (sys_state sys))) ->
  next_handle (driver (sys_state (sys_step a sys))) <= count_done (sys_tasks (sys_step a sys))
  /\ (forall h, h ∈ live (driver (sys_state (sys_step a sys))) ->
                h < next_handle (driver (sys_state (sys_step a sys))))
  /\ length (sys_tasks (sys_step a sys)) = length (sys_tasks sys).
Proof.
  intros Hn Hl. destruct a as [i env|h]; simpl.
  2: { split_and!; [done| |done]. intros h' Hh'. apply Hl. set_solver. }
  destruct (sys_tasks sys !! i) as [p|] eqn:Hi; [|done].
  destruct (task_step env p (sys_state sys)) as [[p' s'] tr] eqn:Hstep. simpl.
  rewrite length_insert.
  pose proof (count_done_insert (sys_tasks sys) i p p' Hi) as Hcount.
  destruct p as [| |c h|c|r]; unfold task_step in Hstep.
  - destruct (connection_is_fresh _ _); injection Hstep as <- <- _; simpl in *;
      (split_and!; [lia|done|done]).
  - destruct (getToken_result env) as [e|a];
      [injection Hstep as <- <- _; simpl in *; split_and!; [lia|done|done]|].
    cbn zeta in Hstep. rewrite connected_pool_store_token in Hstep.
    destruct (connected_pool (sys_state sys)); injection Hstep as <- <- _; simpl in *;
      (split_and!; [lia|done|done]).
  - destruct (close_result env) as [e|[]]; injection Hstep as <- <- _; simpl in *.
    + split_and!; [lia|done|done].
    + split_and!; [lia| |done]. intros h' Hh'. apply Hl. set_solver.
  - destruct (connect_result env) as [e|[]]; injection Hstep as <- <- _; simpl in *.
    + split_and!; [lia|done|done].
    + split_and!; [lia| |done]. intros h' Hh'.
      apply elem_of_union in Hh' as [Hh'|Hh'].
      * apply elem_of_singleton in Hh'. lia.
      * apply Hl in Hh'. lia.
  - injection Hstep as <- <- _. simpl in *. split_and!; [lia|done|done].
Qed.

Lemma pools_bounded_run (sched : list action) :
  forall sys,
    next_handle (driver (sys_state sys)) <= count_done (sys_tasks sys) ->
    (forall h, h ∈ live (driver (sys_state sys)) ->
               h < next_handle (driver (sys_state sys))) ->
    next_handle (driver (sys_state (sys_run sched sys)))
      <= count_done (sys_tasks (sys_run sched sys))
    /\ (forall h, h ∈ live (driver (sys_state (sys_run sched sys))) ->
                  h < next_handle (driver (sys_state (sys_run sched sys))))
    /\ length (sys_tasks (sys_run sched sys)) = length (sys_tasks sys).
Proof.
  induction sched as [|a rest IH]; intros sys Hn Hl; [done|].
  simpl. destruct (pools_bounded_step a sys Hn Hl) as (Hn' & Hl' & Hlen).
  destruct (IH _ Hn' Hl') as (? & ? & ?). split_and!; [done|done|congruence].
Qed.

(** X22.  Under every schedule, interleaved or not, [n] acquisition calls
    open at most [n] connections in all, and at no point do more than
    [n] pools report connected: what interleaving can leak is bounded by
    the number of calls in flight. *)
Theorem interleaved_calls_open_at_most_one_each (n : nat) (sched : list action) :
  let sys := sys_run sched (sys_init n) in
  next_handle (driver (sys_state sys)) <= n
  /\ size (live (driver (sys_state sys))) <= n.
Proof.
  intros sys.
  destruct (pools_bounded_run sched (sys_init n)) as (Hn & Hl & Hlen).
  { simpl. lia. }
  { simpl. intros h Hh. set_solver. }
  fold sys in Hn, Hl, Hlen.
  assert (Hle : next_handle (driver (sys_state sys)) <= n).
  { etrans; [apply Hn|]. etrans; [apply count_done_le_length|].
    rewrite Hlen. simpl. by rewrite length_replicate. }
  split; [done|].
  etrans; [|apply Hle].
  rewrite <- (size_set_seq (C:=gset nat) 0 (next_handle (driver (sys_state sys)))).
  apply subseteq_size. intros h Hh. apply elem_of_set_seq. split; [lia|].
  simpl. by apply Hl.
Qed.

(* ===================================================================== *)
(** * Further facts: the token guard, the health path, REST answers        *)
(* ===================================================================== *)

Lemma calls_in_turn_token_with_expiry (envs : list Env) :
  forall s, Forall answers_token envs -> token_with_expiry s ->
            token_with_expiry (calls_in_turn envs s).
Proof.
  induction envs as [|env envs IH]; intros s Henvs Hs; [done|].
  apply Forall_cons in Henvs as [Henv Henvs]. simpl. apply IH; [done|].
  by apply ensureSqlConnection_token_with_expiry.
Qed.

(** X23.  On a process whose token provider has never answered with an
    empty token, token and expiry are always stored together, so after any
    number of calls made in turn the next call returns at once, without
    any outbound call, as soon as a pool is held and connected and the
    stored expiry is more than 120000 ms ahead. *)
Theorem calls_in_turn_then_noop
    (envs : list Env) (env : Env) (h : handle) (e : Z) :
  Forall answers_token envs ->
  let s := calls_in_turn envs initial_state in
  globalSqlPool (shared s) = Some h ->
  connected s h = true ->
  globalTokenExpiresOn (shared s) = Some e ->
  (now_guard env + 120000 < e)%Z ->
  ensureSqlConnection env s = (inr tt, s, []).
Proof.
  intros Henvs s Hp Hc He Hlt.
  apply (ensureSqlConnection_noop_given_tokens env s h e); try done.
  apply calls_in_turn_token_with_expiry; [done|]. by intros Hne.
Qed.

Lemma calls_in_turn_then_noop_witness :
  let s := calls_in_turn [env_at 0 "T1" 1000000; env_at 900000 "T2" 2000000]
                         initial_state in
  ensureSqlConnection answers_nothing s = (inr tt, s, []).
Proof.
  intros s.
  apply (calls_in_turn_then_noop
           [env_at 0 "T1" 1000000; env_at 900000 "T2" 2000000] answers_nothing 1 2000000).
  - repeat constructor; intros a [= <-]; reflexivity.
  - reflexivity.
  - vm_compute. reflexivity.
  - reflexivity.
  - vm_compute. reflexivity.
Defined.

(** X24.  A request to [/health] needs no credential: with rate limiting
    off it always passes the guard and nothing is counted; with rate
    limiting on, the only refusal it can meet is 429. *)
Theorem health_needs_no_credential
    (cfg : GuardConfig) (req : Request) (now : Z)
    (requestCounts : gmap string RateRecord) :
  path req = "/health" ->
  (ENABLE_RATE_LIMITING cfg = false ->
   access_guard cfg req now requestCounts = (Next, requestCounts))
  /\ (forall r, fst (access_guard cfg req now requestCounts) = Reply r ->
                status r = 429%Z /\ ENABLE_RATE_LIMITING cfg = true).
Proof.
  intros Hp. unfold access_guard.
  destruct (str_truthy (API_KEY cfg)); [|done].
  rewrite apiKeyAuth_skips_health by done.
  destruct (ENABLE_RATE_LIMITING cfg); [|done]. split; [done|].
  unfold rateLimiter.
  destruct (requestCounts !! rateLimiter_key req) as [record|]; [|done].
  destruct (resetTime record <? now)%Z; [done|].
  destruct (RATE_LIMIT_MAX cfg <=? count record)%Z; [|done].
  by intros r [= <-].
Qed.

Lemma health_needs_no_credential_witness :
  access_guard (mkGuardConfig (Some "secret") false 100 60000) health_probe 0 ∅
  = (Next, ∅).
Proof.
  apply (proj1 (health_needs_no_credential
                  (mkGuardConfig (Some "secret") false 100 60000) health_probe 0 ∅
                  eq_refl)).
  reflexivity.
Defined.

Section RestAnswers.
Context `{JsRuntime}.

(** X25.  [POST /api/read_data] and [POST /api/describe_table] never let an
    error escape and answer 200, 400 or 500.  They answer 400 only after
    the connection was acquired and without sending a statement; they
    answer 200 only when one statement was sent and the database returned
    rows, which the answer carries; when acquiring the connection fails
    they answer 500 with the error's message. *)
Theorem rest_route_answers (b : jsval) (env : Env) (s : State) :
  forall route field,
    (route = post_api_read_data /\ field = "data")
    \/ (route = post_api_describe_table /\ field = "columns") ->
    exists r,
      fst (fst (route b env s)) = inr r
      /\ (status r = 200 \/ status r = 400 \/ status r = 500)%Z
      /\ (status r = 400%Z ->
          fst (fst (ensureSqlConnection env s)) = inr tt
          /\ snd (route b env s) = snd (ensureSqlConnection env s))
      /\ (status r = 200%Z ->
          exists q rows fields,
            snd (route b env s) = snd (ensureSqlConnection env s) ++ [EvQuery q]
            /\ query_result env q = inr rows
            /\ json r = JObj fields
            /\ assoc field fields = Some (JArr rows))
      /\ (forall e, fst (fst (ensureSqlConnection env s)) = inl e ->
                    status r = 500%Z
                    /\ json r = JObj [("success", JBool false);
                                      ("error", JStr (error_message e))]).
Proof.
  intros route field [[-> ->]|[-> ->]];
    unfold post_api_read_data, post_api_describe_table,
      try_catch, bind, lift, ret, throw, await_query, ask;
    (destruct (ensureSqlConnection env s) as [[[e|[]] s1] tr1]; simpl;
     [ eexists; split; [reflexivity|]; simpl;
       split_and!; [auto|done|done|by intros ? [= <-]] | ]).
  - destruct (destructure b "query") as [e|q]; simpl;
      [ eexists; split; [reflexivity|]; simpl;
        split_and!; [auto|done|done|done] | ].
    destruct (negb (truthy q) || negb (is_string q)); simpl;
      [ eexists; split; [reflexivity|]; simpl; rewrite !app_nil_r;
        split_and!; [auto|done|done|done] | ].
    destruct (negb (startsWith _ _)); simpl;
      [ eexists; split; [reflexivity|]; simpl; rewrite !app_nil_r;
        split_and!; [auto|done|done|done] | ].
    destruct (query_result env _) as [e|rows] eqn:Hq; simpl;
      (eexists; split; [reflexivity|]; simpl; rewrite ?app_nil_r;
       split_and!; [auto|done| |done]); [done|].
    intros _. do 3 eexists. split_and!; [reflexivity|exact Hq|reflexivity|reflexivity].
  - destruct (destructure b "tableName") as [e|q]; simpl;
      [ eexists; split; [reflexivity|]; simpl;
        split_and!; [auto|done|done|done] | ].
    destruct (negb (truthy q) || negb (is_string q)); simpl;
      [ eexists; split; [reflexivity|]; simpl; rewrite !app_nil_r;
        split_and!; [auto|done|done|done] | ].
    destruct (query_result env _) as [e|rows] eqn:Hq; simpl;
      (eexists; split; [reflexivity|]; simpl; rewrite ?app_nil_r;
       split_and!; [auto|done| |done]); [done|].
    intros _. do 3 eexists. split_and!; [reflexivity|exact Hq|reflexivity|reflexivity].
Qed.

End RestAnswers.

Lemma rest_route_answers_witness :
  exists r,
    fst (fst (post_api_describe_table (JObj []) (env_at 0 "T" 1000000) initial_state))
    = inr r
    /\ (status r = 200 \/ status r = 400 \/ status r = 500)%Z
    /\ (status r = 400%Z ->
        fst (fst (ensureSqlConnection (env_at 0 "T" 1000000) initial_state)) = inr tt
        /\ snd (post_api_describe_table (JObj []) (env_at 0 "T" 1000000) initial_state)
           = snd (ensureSqlConnection (env_at 0 "T" 1000000) initial_state))
    /\ (status r = 200%Z ->
        exists q rows fields,
          snd (post_api_describe_table (JObj []) (env_at 0 "T" 1000000) initial_state)
          = snd (ensureSqlConnection (env_at 0 "T" 1000000) initial_state) ++ [EvQuery q]
          /\ query_result (env_at 0 "T" 1000000) q = inr rows
          /\ json r = JObj fields
          /\ assoc "columns" fields = Some (JArr rows))
    /\ (forall e,
          fst (fst (ensureSqlConnection (env_at 0 "T" 1000000) initial_state)) = inl e ->
          status r = 500%Z
          /\ json r = JObj [("success", JBool false);
                            ("error", JStr (error_message e))]).
Proof.
  apply (rest_route_answers (JObj []) (env_at 0 "T" 1000000) initial_state
           post_api_describe_table "columns").
  right. split; reflexivity.
Defined.
